(** * spacy.cli.validate: compatibility check of installed models

    A shallow embedding of [src/spacy/cli/validate.py] and the properties
    of its version normaliser, compatibility lookup, scanners, report
    classification and row rendering.

    Python values are modelled as follows.
    - [str] is [string]; one [ascii] stands for one character.
    - [dict] is [gmap] (string keys); [set] is [gset string].
    - A raised exception is the left summand of [res]; the interpreter
      state touched by [validate] (standard output, HTTP requests issued)
      is threaded explicitly by the monad [M]. *)

From Stdlib Require Import Ascii String ZArith Lia.
From stdpp Require Import base option list strings pretty gmap fin_maps fin_sets.

Local Open Scope stdpp_scope.

(** ** Python string methods *)

Module Str.

(** [s.startswith(p)] *)
Definition startswith (s p : string) : bool := String.prefix p s.

(** [s[n:]] *)
Fixpoint drop (n : nat) (s : string) : string :=
  match n, s with
  | S k, String _ s' => drop k s'
  | _, _ => s
  end.

(** [s.endswith(p)]: the last [len(p)] characters of [s] are [p]. *)
Definition endswith (s p : string) : bool :=
  (String.length p <=? String.length s)%nat
  && String.eqb (drop (String.length s - String.length p) s) p.

(** The scan of [s.replace(old, new)] for a non-empty [old]: left to
    right, the leftmost match of [old] is replaced by [new] and the scan
    resumes after the match.  [skip] counts the characters of the
    current match that are still to be jumped over. *)
Fixpoint replace_from (old new : string) (skip : nat) (s : string) : string :=
  match s with
  | "" => ""
  | String c s' =>
      match skip with
      | S k => replace_from old new k s'
      | O =>
          if String.prefix old s
          then new +:+ replace_from old new (String.length old - 1) s'
          else String c (replace_from old new 0 s')
      end
  end.

(** [s.replace("", new)]: [new] is inserted before every character and
    at the end. *)
Fixpoint replace_empty (new s : string) : string :=
  match s with
  | "" => new
  | String c s' => new +:+ String c (replace_empty new s')
  end.

(** [s.replace(old, new)] *)
Definition replace (s old new : string) : string :=
  match old with
  | "" => replace_empty new s
  | String _ _ => replace_from old new 0 s
  end.

(** [old in s]: [old] occurs in [s] at some position. *)
Fixpoint occurs (old s : string) : bool :=
  String.prefix old s
  || match s with
     | "" => false
     | String _ s' => occurs old s'
     end.

(** Number of positions of [s] at which an occurrence of [old] starts
    (overlapping occurrences are all counted). *)
Fixpoint count_occ (old s : string) : nat :=
  (if String.prefix old s then 1 else 0)
  + match s with
    | "" => 0
    | String _ s' => count_occ old s'
    end.

(** [s.count(c)] for a character [c]. *)
Fixpoint count_char (c : ascii) (s : string) : nat :=
  match s with
  | "" => 0
  | String d s' => (if decide (d = c) then 1 else 0) + count_char c s'
  end.

(** An occurrence of [old] starts inside the prefix [p] of [p +:+ rest]. *)
Fixpoint starts_within (old p rest : string) : bool :=
  match p with
  | "" => false
  | String c p' => String.prefix old (p +:+ rest) || starts_within old p' rest
  end.

(** The string [s] with [f] applied to each of its characters. *)
Fixpoint map_chars (f : ascii → ascii) (s : string) : string :=
  match s with
  | "" => ""
  | String c s' => String (f c) (map_chars f s')
  end.

(** [ljust]: [s.ljust(w)], the effect of the format field [{:<w}] on a
    string: padded on the right with spaces, never truncated. *)
Fixpoint spaces (n : nat) : string :=
  match n with
  | O => ""
  | S k => String " " (spaces k)
  end.

Definition ljust (w : nat) (s : string) : string :=
  s +:+ spaces (w - String.length s).

(** [sep.join(l)] *)
Fixpoint join (sep : string) (l : list string) : string :=
  match l with
  | [] => ""
  | [x] => x
  | x :: l' => x +:+ sep +:+ join sep l'
  end.

End Str.

(** What "every occurrence of [old] in [s] is replaced with [new]" means:
    [s] is cut at its successive leftmost occurrences of [old], each of
    them is exchanged for [new], and the text between them is kept. *)
Inductive replaced_all (old new : string) : string → string → Prop :=
  | replaced_none s :
      Str.occurs old s = false →
      replaced_all old new s s
  | replaced_next p s r :
      Str.starts_within old p (old +:+ s) = false →
      replaced_all old new s r →
      replaced_all old new (p +:+ old +:+ s) (p +:+ new +:+ r).

(** ** [reformat_version] *)

(** [reformat_version(version)]: "Hack to reformat old versions ending on
    '-alpha' to match pip format." *)
Definition reformat_version (version : string) : string :=
  if Str.endswith version "-alpha"
  then Str.replace version "-alpha" "a0"
  else Str.replace version "-alpha" "a".


(** ** Exceptions, results and the interpreter state *)

(** The exceptions this module can end with: a failed [d[k]], a failed
    [l[i]], and [sys.exit(code)]. *)
Inductive exn : Type :=
  | KeyError (key : string)
  | IndexError
  | SystemExit (code : Z).

Inductive res (A : Type) : Type :=
  | Ok (a : A)
  | Raise (e : exn).

Arguments Ok {A} a.
Arguments Raise {A} e.

#[export] Instance res_ret : MRet res := λ A a, Ok a.

#[export] Instance res_bind : MBind res := λ A B f r,
  match r with
  | Ok a => f a
  | Raise e => Raise e
  end.

(** What the command has written and requested so far. *)
Inductive output : Type :=
  | Print (line : string)
  | Prints (texts : list string) (title : option string).

Record world : Type := World {
  stdout : list output;
  requests : list string
}.

Record M (A : Type) : Type := MkM { run : world → world * res A }.

Arguments MkM {A} run.
Arguments run {A} m w.

#[export] Instance M_ret : MRet M := λ A a, MkM (λ w, (w, Ok a)).

#[export] Instance M_bind : MBind M := λ A B f m,
  MkM (λ w,
    match run m w with
    | (w', Ok a) => run (f a) w'
    | (w', Raise e) => (w', Raise e)
    end).

Definition lift {A} (r : res A) : M A := MkM (λ w, (w, r)).

(** [print(line)] *)
Definition print (line : string) : M unit :=
  MkM (λ w, (World (stdout w ++ [Print line]) (requests w), Ok tt)).

(** Modelled from the spec: [util.prints] is not among the sources.  It
    prints the texts under the optional title and, when [exits] is given,
    terminates the process with that exit code ("prints a titled error
    message and terminates with exit code 1"; "prints no models found and
    exits cleanly"). *)
Definition prints (texts : list string) (title : option string)
    (exits : option Z) : M unit :=
  MkM (λ w,
    (World (stdout w ++ [Prints texts title]) (requests w),
     match exits with
     | Some code => Raise (SystemExit code)
     | None => Ok tt
     end)).

(** ** Python container operations *)

(** [k in d] *)
Definition contains {V} (d : gmap string V) (k : string) : bool :=
  bool_decide (is_Some (d !! k)).

(** [d[k]] *)
Definition getitem {V} (d : gmap string V) (k : string) : res V :=
  match d !! k with
  | Some v => Ok v
  | None => Raise (KeyError k)
  end.

(** [d.get(k, default)] *)
Definition dict_get {V} (d : gmap string V) (k : string) (default : V) : V :=
  match d !! k with
  | Some v => v
  | None => default
  end.

(** [x in l] *)
Definition list_contains (x : string) (l : list string) : bool :=
  bool_decide (x ∈ l).

(** [l[i]] for [0 <= i] *)
Definition list_getitem (l : list string) (i : nat) : res string :=
  match l !! i with
  | Some x => Ok x
  | None => Raise IndexError
  end.

(** [for k, v in d.items(): s = body(k, v, s)], where the body may raise. *)
Definition for_items {V S} (d : gmap string V)
    (body : string → V → S → res S) (init : S) : res S :=
  map_fold (λ k v acc, s ← acc; body k v s) (Ok init) d.

(** [for k, v in d.items(): body(k, v)], for a body with effects. *)
Definition for_items_M {V} (d : gmap string V)
    (body : string → V → M unit) : M unit :=
  map_fold (λ k v acc, acc ;; body k v) (mret tt) d.

(** ** Data *)

(** The compatibility table for one spaCy version: model name to the
    list of compatible model versions. *)
Abbreviation submap := (gmap string (list string)).

(** The decoded compatibility table: spaCy version to sub-map. *)
Abbreviation matrix := (gmap string (gmap string (list string))).

(** [{'name': ..., 'version': ..., 'compat': ...}] *)
Module Entry.
Record t : Type := Make { name : string; version : string; compat : bool }.
End Entry.

#[export] Instance entry_eq_dec : EqDecision Entry.t.
Proof. solve_decision. Defined.

(** Modelled from the spec: [util.read_json] is not among the sources.
    A [meta.json] decodes to an object "with fields lang, name, version",
    the three fields [get_model_links] reads. *)
Module Meta.
Record t : Type := Make { lang : string; name : string; version : string }.
End Meta.

(** An installed distribution of [pkg_resources.working_set]. *)
Module Dist.
Record t : Type := Make { version : string }.
End Dist.

(** An entry of the data directory: whether it is a directory, and the
    decoded [meta.json] inside it when that file exists. *)
Record dir_entry : Type := DirEntry {
  is_dir : bool;
  meta_json : option Meta.t
}.

(** An existing data directory: its path and its entries by name. *)
Record data_dir : Type := DataDir {
  dir_path : string;
  iterdir : gmap string dir_entry
}.

(** The response of [requests.get]: its status code and its decoded body,
    "a JSON body shaped { spacy: { version: { model: [version, ...] } } }",
    of which [validate] reads the value at key ['spacy']. *)
Record response : Type := Response {
  status_code : Z;
  json_spacy : matrix
}.

(** Everything the command reads from outside [validate.py]. *)
Record environment : Type := Environment {
  (** [about.__version__] *)
  about_version : string;
  (** [about.__compatibility__] *)
  about_compatibility : string;
  (** the answer of the server to a GET of [about.__compatibility__] *)
  http_response : response;
  (** [get_data_path()]: [None] when the data directory does not exist *)
  get_data_path : option data_dir;
  (** [pkg_resources.working_set.by_key] *)
  by_key : gmap string Dist.t;
  (** [path2str(Path(__file__).parent.parent)] *)
  package_dir : string;
  (** [locale_escape('✔', errors='ignore')] *)
  check_mark : string
}.

(** [requests.get(url)] *)
Definition requests_get (e : environment) (url : string) : M response :=
  MkM (λ w, (World (stdout w) (requests w ++ [url]), Ok (http_response e))).

(** [path2str(get_data_path())] *)
Definition data_path_str (e : environment) : string :=
  match get_data_path e with
  | Some d => dir_path d
  | None => "None"
  end.

(** ** The functions of [validate.py] *)

(** [is_compat(compat, name, version)]:
    [name in compat and version in compat[name]] *)
Definition is_compat (compat : submap) (name version : string) : res bool :=
  if contains compat name
  then vs ← getitem compat name; mret (list_contains version vs)
  else mret false.

(** The truth value [is_compat] computes: [version] is in the list that
    [compat] stores under [name]. *)
Definition listed (compat : submap) (name version : string) : bool :=
  match compat !! name with
  | Some vs => bool_decide (version ∈ vs)
  | None => false
  end.

(** [is_model_path(model_path)], on the last part [name] of the path and
    the entry found there. *)
Definition is_model_path (name : string) (p : dir_entry) : bool :=
  let exclude := ["cache"; "pycache"; "__pycache__"] in
  is_dir p && negb (list_contains name exclude)
  && negb (Str.startswith name ".").

(** [get_row] at the five arguments every call passes: a field of
    width 10 after four spaces, then four fields of width 20, each after
    two spaces, all left-aligned. *)
Definition get_row (a0 a1 a2 a3 a4 : string) : string :=
  "    " +:+ Str.ljust 10 a0
  +:+ "  " +:+ Str.ljust 20 a1
  +:+ "  " +:+ Str.ljust 20 a2
  +:+ "  " +:+ Str.ljust 20 a3
  +:+ "  " +:+ Str.ljust 20 a4.

Definition esc : string := String (ascii_of_nat 27) "".

(** ['\x1b[38;5;1m{}\x1b[0m'] *)
Definition tpl_red (x : string) : string :=
  esc +:+ "[38;5;1m" +:+ x +:+ esc +:+ "[0m".

(** ['\x1b[38;5;2m{}\x1b[0m'] *)
Definition tpl_green (x : string) : string :=
  esc +:+ "[38;5;2m" +:+ x +:+ esc +:+ "[0m".

(** [get_model_row(compat, name, data, type)] *)
Definition get_model_row (e : environment) (compat : submap) (name : string)
    (data : Entry.t) (type : string) : res string :=
  if Entry.compat data
  then
    let comp := tpl_green (check_mark e) in
    let version := tpl_green (Entry.version data) in
    mret (get_row type name (Entry.name data) version comp)
  else
    first ← list_getitem (dict_get compat (Entry.name data) ["n/a"]) 0;
    let comp := "--> " +:+ first in
    let version := tpl_red (Entry.version data) in
    mret (get_row type name (Entry.name data) version comp).

(** [get_model_links(compat)] *)
Definition get_model_links (e : environment) (compat : submap)
    : res (gmap string Entry.t) :=
  match get_data_path e with
  | Some data_path =>
      let models :=
        filter (λ p, is_model_path p.1 p.2 = true) (iterdir data_path) in
      for_items models (λ link model links,
        match meta_json model with
        | None => mret links
        | Some meta =>
            let name := Meta.lang meta +:+ "_" +:+ Meta.name meta in
            c ← is_compat compat name (Meta.version meta);
            mret (<[link := Entry.Make name (Meta.version meta) c]> links)
        end) ∅
  | None => mret ∅
  end.

(** [get_model_pkgs(compat, all_models)] *)
Definition get_model_pkgs (e : environment) (compat : submap)
    (all_models : gset string) : res (gmap string Entry.t) :=
  for_items (by_key e) (λ pkg_name pkg_data pkgs,
    let package := Str.replace pkg_name "-" "_" in
    if decide (package ∈ all_models)
    then
      let version := Dist.version pkg_data in
      c ← is_compat compat package version;
      mret (<[pkg_name := Entry.Make package version c]> pkgs)
    else mret pkgs) ∅.

(** Lines 22-26 of [validate]: collects the model names of every spaCy
    version and rewrites every version list in place,
    [compat[spacy_v][model] = [reformat_version(v) for v in model_vs]]. *)
Definition normalize_table (compat : matrix) : gset string * matrix :=
  map_fold (λ spacy_v models '(all_models, compat),
    let all_models := all_models ∪ dom models in
    let compat :=
      map_fold (λ model model_vs compat,
        alter (insert model (reformat_version <$> model_vs)) spacy_v compat)
        compat models in
    (all_models, compat)) (∅, compat) compat.

(** A sub-map with [reformat_version] applied to every version string. *)
Definition normalized (models : submap) : submap :=
  (λ model_vs : list string, reformat_version <$> model_vs) <$> models.

(** [{l for l, d in model_links.items() if not d['compat']}] *)
Definition incompat_links (model_links : gmap string Entry.t) : gset string :=
  dom (filter (λ p, Entry.compat p.2 = false) model_links).

(** [{d['name'] for _, d in model_pkgs.items() if not d['compat']}],
    updated with
    [[d['name'] for _, d in model_links.items() if not d['compat']]] *)
Definition incompat_models (model_pkgs model_links : gmap string Entry.t)
    : gset string :=
  list_to_set
    ((λ p, Entry.name p.2)
       <$> filter (λ p, Entry.compat p.2 = false) (map_to_list model_pkgs))
  ∪ list_to_set
    ((λ p, Entry.name p.2)
       <$> filter (λ p, Entry.compat p.2 = false) (map_to_list model_links)).

(** [[m for m in incompat_models if m not in current_compat]] *)
Definition na_models (incompat_models : gset string) (current_compat : submap)
    : list string :=
  filter (λ m, contains current_compat m = false) (elements incompat_models).

(** [[m for m in incompat_models if m in current_compat]] *)
Definition update_models (incompat_models : gset string)
    (current_compat : submap) : list string :=
  filter (λ m, contains current_compat m = true) (elements incompat_models).

Definition nl : string := String (ascii_of_nat 10) "".

(** Truth value of a dict, of a list and of a set. *)
Definition nonempty_dict {V} (d : gmap string V) : bool :=
  negb (bool_decide (d = ∅)).

Definition nonempty_list {A} (l : list A) : bool :=
  match l with [] => false | _ => true end.

Definition nonempty_set (s : gset string) : bool :=
  negb (bool_decide (s = ∅)).

(** [validate(cmd)] *)
Definition validate (e : environment) : M unit :=
  r ← requests_get e (about_compatibility e);
  (if bool_decide (status_code r ≠ 200%Z)
   then prints ["Couldn't fetch compatibility table."]
          (Some ("Server error (" +:+ pretty (status_code r) +:+ ")"))
          (Some 1%Z)
   else mret tt);;
  let '(all_models, compat) := normalize_table (json_spacy r) in
  current_compat ← lift (getitem compat (about_version e));
  model_links ← lift (get_model_links e current_compat);
  model_pkgs ← lift (get_model_pkgs e current_compat all_models);
  let incompat_links := incompat_links model_links in
  let incompat_models := incompat_models model_pkgs model_links in
  let na_models := na_models incompat_models current_compat in
  let update_models := update_models incompat_models current_compat in
  prints [package_dir e]
    (Some ("Installed models (spaCy v" +:+ about_version e +:+ ")")) None;;
  (if nonempty_dict model_links || nonempty_dict model_pkgs
   then
     print (get_row "TYPE" "NAME" "MODEL" "VERSION" "");;
     for_items_M model_pkgs (λ name data,
       row ← lift (get_model_row e current_compat name data "package");
       print row);;
     for_items_M model_links (λ name data,
       row ← lift (get_model_row e current_compat name data "link");
       print row)
   else prints ["No models found in your current environment."] None
          (Some 0%Z));;
  (if nonempty_list update_models
   then
     let cmd pkg := "    python -m spacy download " +:+ pkg in
     print (nl +:+ "    Use the following commands to update the model packages:");;
     print (Str.join nl (cmd <$> update_models))
   else mret tt);;
  (if nonempty_list na_models
   then prints ["The following models are not available for spaCy v"
                +:+ about_version e +:+ ": " +:+ Str.join ", " na_models]
          None None
   else mret tt);;
  (if nonempty_set incompat_links
   then prints ["You may also want to overwrite the incompatible links using "
                +:+ "the `python -m spacy link` command with `--force`, or remove "
                +:+ "them from the data directory. Data path: "
                +:+ data_path_str e]
          None None
   else mret tt).

(** Lines 31-63 of [validate]: the report, as a function of the current
    sub-map and of what the two scanners returned. *)
Definition report (e : environment) (current_compat : submap)
    (model_links model_pkgs : gmap string Entry.t) : M unit :=
  let incompat_links := incompat_links model_links in
  let incompat_models := incompat_models model_pkgs model_links in
  let na_models := na_models incompat_models current_compat in
  let update_models := update_models incompat_models current_compat in
  prints [package_dir e]
    (Some ("Installed models (spaCy v" +:+ about_version e +:+ ")")) None;;
  (if nonempty_dict model_links || nonempty_dict model_pkgs
   then
     print (get_row "TYPE" "NAME" "MODEL" "VERSION" "");;
     for_items_M model_pkgs (λ name data,
       row ← lift (get_model_row e current_compat name data "package");
       print row);;
     for_items_M model_links (λ name data,
       row ← lift (get_model_row e current_compat name data "link");
       print row)
   else prints ["No models found in your current environment."] None
          (Some 0%Z));;
  (if nonempty_list update_models
   then
     let cmd pkg := "    python -m spacy download " +:+ pkg in
     print (nl +:+ "    Use the following commands to update the model packages:");;
     print (Str.join nl (cmd <$> update_models))
   else mret tt);;
  (if nonempty_list na_models
   then prints ["The following models are not available for spaCy v"
                +:+ about_version e +:+ ": " +:+ Str.join ", " na_models]
          None None
   else mret tt);;
  (if nonempty_set incompat_links
   then prints ["You may also want to overwrite the incompatible links using "
                +:+ "the `python -m spacy link` command with `--force`, or remove "
                +:+ "them from the data directory. Data path: "
                +:+ data_path_str e]
          None None
   else mret tt).

(** What lines 50-63 of [validate] write: the update commands, the notice
    of unavailable models and the hint about incompatible links, each
    only when its list is not empty. *)
Definition closing_output (e : environment) (current_compat : submap)
    (model_links model_pkgs : gmap string Entry.t) : list output :=
  let incompat := incompat_models model_pkgs model_links in
  let na := na_models incompat current_compat in
  let update := update_models incompat current_compat in
  (if nonempty_list update
   then [Print (nl +:+ "    Use the following commands to update the model packages:");
         Print (Str.join nl
                  ((λ pkg, "    python -m spacy download " +:+ pkg) <$> update))]
   else [])
  ++ (if nonempty_list na
      then [Prints ["The following models are not available for spaCy v"
                    +:+ about_version e +:+ ": " +:+ Str.join ", " na]
              None]
      else [])
  ++ (if nonempty_set (incompat_links model_links)
      then [Prints ["You may also want to overwrite the incompatible links using "
                    +:+ "the `python -m spacy link` command with `--force`, or remove "
                    +:+ "them from the data directory. Data path: "
                    +:+ data_path_str e]
              None]
      else []).

(** The heading that [validate] prints before the table. *)
Definition heading (e : environment) : output :=
  Prints [package_dir e]
    (Some ("Installed models (spaCy v" +:+ about_version e +:+ ")")).

(** ** Example data *)

(** A compatibility table in its raw form: one model listed for spaCy
    2.0.0, another one for 1.9.0 only. *)
Definition example_table : matrix :=
  {[ "2.0.0" := {[ "en_core_web_sm" := ["2.0.0"] ]};
     "1.9.0" := {[ "en_old" := ["1.0.0-alpha"] ]} ]}.

(** A data directory with a link to a model, a directory without
    [meta.json] and a cache directory. *)
Definition example_data : data_dir :=
  DataDir "/spacy/data"
    {[ "en" := DirEntry true (Some (Meta.Make "en" "core_web_sm" "1.0.0"));
       "tmp" := DirEntry true None;
       "__pycache__" := DirEntry true (Some (Meta.Make "x" "y" "0")) ]}.

(** Installed packages: a model at a version that is not listed, a model
    that spaCy 2.0.0 does not ship, and a package that is not a model. *)
Definition example_packages : gmap string Dist.t :=
  {[ "en-core-web-sm" := Dist.Make "1.0.0";
     "en-old" := Dist.Make "1.0.0a0";
     "requests" := Dist.Make "2.18.4" ]}.

Definition example_env (version : string) (status : Z)
    (data : option data_dir) (packages : gmap string Dist.t) : environment :=
  Environment version "https://example.org/compatibility.json"
    (Response status example_table) data packages "/spacy" "ok".

Definition world0 : world := World [] [].

(** * Properties *)

(** ** Strings *)

#[local] Arguments String.append !_ _ / : simpl nomatch.

Lemma prefix_empty (s : string) : String.prefix "" s = true.
Proof. by destruct s. Qed.

Lemma prefix_app (a b : string) : String.prefix a (a +:+ b) = true.
Proof.
  induction a as [|c a IH]; simpl; [apply prefix_empty|].
  by destruct (ascii_dec c c).
Qed.

Lemma prefix_split (a s : string) :
  String.prefix a s = true → ∃ u, s = a +:+ u.
Proof.
  revert s; induction a as [|c a IH]; intros s H; [by exists s|].
  destruct s as [|d s]; simpl in H; [done|].
  destruct (ascii_dec c d) as [->|]; [|done].
  destruct (IH _ H) as [u ->]. by exists u.
Qed.

Lemma append_assoc (s t u : string) : (s +:+ t) +:+ u = s +:+ (t +:+ u).
Proof. induction s; simpl; congruence. Qed.

Lemma prefix_app_r (a s t : string) :
  String.prefix a s = true → String.prefix a (s +:+ t) = true.
Proof.
  intros [u ->]%prefix_split.
  rewrite append_assoc. apply prefix_app.
Qed.

Lemma append_length (s t : string) :
  String.length (s +:+ t) = String.length s + String.length t.
Proof. induction s; simpl; auto. Qed.

Lemma append_empty_r (s : string) : s +:+ "" = s.
Proof. induction s; simpl; congruence. Qed.

Lemma prefix_length (a s : string) :
  String.prefix a s = true → String.length a ≤ String.length s.
Proof. intros [u ->]%prefix_split. rewrite append_length. lia. Qed.

Lemma occurs_prefix (a s : string) :
  String.prefix a s = true → Str.occurs a s = true.
Proof. intros H. destruct s; cbn [Str.occurs]; by rewrite H. Qed.

Section replace.
Variables (o : ascii) (os new : string).

Let old : string := String o os.
Let R : string → string := Str.replace_from old new 0.

Lemma replace_from_skip (t u : string) :
  Str.replace_from old new (String.length t) (t +:+ u) = R u.
Proof. induction t; simpl; auto. Qed.

Lemma replace_from_nil : R "" = "".
Proof. done. Qed.

Lemma replace_from_match (u : string) : R (old +:+ u) = new +:+ R u.
Proof.
  unfold R at 1. unfold old at 2. cbn [String.append Str.replace_from].
  change (String o (os +:+ u)) with (old +:+ u).
  rewrite prefix_app. f_equal.
  replace (String.length old - 1) with (String.length os)
    by (unfold old; simpl; lia).
  apply replace_from_skip.
Qed.

Lemma replace_from_nomatch c (s : string) :
  String.prefix old (String c s) = false →
  R (String c s) = String c (R s).
Proof. intros H. unfold R. cbn [Str.replace_from]. by rewrite H. Qed.

(** The scan, as an induction principle: the empty string, a character
    that does not start a match, and a match. *)
Lemma replace_from_ind (P : string → string → Prop) :
  P "" "" →
  (∀ c s r, String.prefix old (String c s) = false →
            P s r → P (String c s) (String c r)) →
  (∀ u r, P u r → P (old +:+ u) (new +:+ r)) →
  ∀ s, P s (R s).
Proof.
  intros Hnil Hchar Hmatch s.
  remember (String.length s) as n eqn:Hn.
  revert s Hn. induction (lt_wf n) as [n _ IH]. intros s ->.
  destruct s as [|c s]; [done|].
  destruct (String.prefix old (String c s)) eqn:Hp.
  - destruct (prefix_split _ _ Hp) as [u Hu]. rewrite Hu.
    rewrite replace_from_match. apply Hmatch.
    eapply IH; [|done]. rewrite Hu, append_length. unfold old. simpl. lia.
  - rewrite replace_from_nomatch by done. apply Hchar; [done|].
    eapply IH; [|done]. simpl. lia.
Qed.

Lemma replace_from_replaced_all (s : string) : replaced_all old new s (R s).
Proof.
  apply replace_from_ind.
  - by apply replaced_none.
  - intros c u r Hp Hr. inversion Hr as [u' Hocc|p u' r' Hw Hr']; subst.
    + apply replaced_none. cbn [Str.occurs]. by rewrite Hp, Hocc.
    + apply (replaced_next old new (String c p)); [|done].
      cbn [Str.starts_within]. rewrite Hw.
      cbn [String.append] in Hp |- *. by rewrite Hp.
  - intros u r Hr. by apply (replaced_next old new "").
Qed.

Lemma replace_from_no_occ (s : string) : Str.occurs old s = false → R s = s.
Proof.
  apply (replace_from_ind (λ s r, Str.occurs old s = false → r = s)).
  - done.
  - intros c u r Hp IH Hocc. simpl in Hocc. f_equal. apply IH.
    by apply orb_false_elim in Hocc as [_ ?].
  - intros u r _ Hocc. by rewrite occurs_prefix in Hocc by apply prefix_app.
Qed.

Lemma replace_from_length (s : string) :
  String.length new < String.length old →
  String.length (R s) ≤ String.length s
  ∧ (Str.occurs old s = true → String.length (R s) < String.length s).
Proof.
  intros Hlen.
  apply (replace_from_ind (λ s r,
    String.length r ≤ String.length s
    ∧ (Str.occurs old s = true → String.length r < String.length s))).
  - done.
  - intros c u r Hp [IH1 IH2]. split; [simpl; lia|].
    intros Hocc. cbn [Str.occurs] in Hocc. rewrite Hp in Hocc.
    specialize (IH2 Hocc). simpl. lia.
  - intros u r [IH _]. rewrite !append_length. lia.
Qed.

End replace.

Lemma drop_app (t p : string) : Str.drop (String.length t) (t +:+ p) = p.
Proof. induction t; simpl; [by destruct p|done]. Qed.

Lemma drop_split (n : nat) (s : string) :
  ∃ t, s = t +:+ Str.drop n s.
Proof.
  revert s; induction n as [|n IH]; intros s; [by exists ""|].
  destruct s as [|c s]; [by exists ""|].
  destruct (IH s) as [t Ht]. exists (String c t). simpl. by f_equal.
Qed.

(** [Str.endswith] decides "[s] ends with [p]". *)
Lemma endswith_spec (s p : string) :
  Str.endswith s p = true ↔ ∃ t, s = t +:+ p.
Proof.
  unfold Str.endswith. rewrite andb_true_iff, Nat.leb_le, String.eqb_eq. split.
  - intros [_ H]. destruct (drop_split (String.length s - String.length p) s)
      as [t Ht]. exists t. by rewrite <- H.
  - intros [t ->]. rewrite append_length. split; [lia|].
    replace (String.length t + String.length p - String.length p)
      with (String.length t) by lia.
    apply drop_app.
Qed.

(** [Str.occurs] decides "[old] is a substring of [s]". *)
Lemma occurs_spec (old s : string) :
  Str.occurs old s = true ↔ ∃ p q, s = p +:+ old +:+ q.
Proof.
  split.
  - induction s as [|c s IH]; cbn [Str.occurs]; intros H.
    + rewrite orb_false_r in H. apply prefix_split in H as [u ->].
      by exists "", u.
    + apply orb_true_iff in H as [H|H].
      * apply prefix_split in H as [u ->]. by exists "", u.
      * destruct (IH H) as (p & q & ->). by exists (String c p), q.
  - intros (p & q & ->). induction p as [|c p IH].
    + simpl. apply occurs_prefix, prefix_app.
    + simpl. cbn [Str.occurs]. rewrite IH. apply orb_true_r.
Qed.

Lemma replace_alpha (new s : string) :
  Str.replace s "-alpha" new = Str.replace_from "-alpha" new 0 s.
Proof. done. Qed.

(** Every position at which "-alpha" occurs is counted once: the result
    is shorter by [6 - len(new)] characters per occurrence. *)
Lemma replace_alpha_length (new s : string) :
  String.length new ≤ 6 →
  String.length (Str.replace s "-alpha" new)
  + (6 - String.length new) * Str.count_occ "-alpha" s
  = String.length s.
Proof.
  intros Hlen. rewrite replace_alpha.
  apply (replace_from_ind "-" "alpha" new (λ s r,
    String.length r + (6 - String.length new) * Str.count_occ "-alpha" s
    = String.length s)).
  - simpl. lia.
  - intros c u r Hp IH. cbn [Str.count_occ]. rewrite Hp. simpl. lia.
  - intros u r IH. rewrite !append_length.
    assert (Str.count_occ "-alpha" ("-alpha" +:+ u)
            = S (Str.count_occ "-alpha" u)) as ->.
    { simpl. by rewrite prefix_empty. }
    simpl String.length. lia.
Qed.

(** ** [reformat_version] *)

Example reformat_version_ex1 : reformat_version "1.0.0-alpha" = "1.0.0a0".
Proof. reflexivity. Qed.

Example reformat_version_ex2 : reformat_version "1.0.0-alpha2" = "1.0.0a2".
Proof. reflexivity. Qed.

Example reformat_version_ex3 : reformat_version "2.0.0" = "2.0.0".
Proof. reflexivity. Qed.

Example reformat_version_ex4 :
  reformat_version "1-alpha.2-alpha" = "1a0.2a0".
Proof. reflexivity. Qed.

Lemma reformat_version_no_occ (s : string) :
  Str.occurs "-alpha" s = false → reformat_version s = s.
Proof.
  intros H. unfold reformat_version.
  destruct (Str.endswith s "-alpha"); rewrite replace_alpha;
    by apply replace_from_no_occ.
Qed.

Lemma reformat_version_length (s : string) :
  String.length (reformat_version s) ≤ String.length s
  ∧ (Str.occurs "-alpha" s = true →
     String.length (reformat_version s) < String.length s).
Proof.
  unfold reformat_version.
  destruct (Str.endswith s "-alpha"); rewrite replace_alpha;
    apply replace_from_length; simpl; lia.
Qed.

(** C3: [reformat_version] is a total function on strings.  On a string
    that ends with "-alpha" every occurrence of "-alpha" is replaced with
    "a0"; on any other string every occurrence of "-alpha" is replaced
    with "a"; the length of the result accounts for every position at
    which "-alpha" occurs; and a string in which "-alpha" does not occur
    is returned unchanged. *)
Theorem reformat_version_spec (s : string) :
  ((∃ t, s = t +:+ "-alpha") →
     replaced_all "-alpha" "a0" s (reformat_version s)
     ∧ String.length (reformat_version s) + 4 * Str.count_occ "-alpha" s
       = String.length s)
  ∧ (¬ (∃ t, s = t +:+ "-alpha") →
     replaced_all "-alpha" "a" s (reformat_version s)
     ∧ String.length (reformat_version s) + 5 * Str.count_occ "-alpha" s
       = String.length s)
  ∧ (¬ (∃ p q, s = p +:+ "-alpha" +:+ q) → reformat_version s = s).
Proof.
  split; [|split].
  - intros Hend%endswith_spec. unfold reformat_version. rewrite Hend. split.
    + apply (replace_from_replaced_all "-" "alpha").
    + apply (replace_alpha_length "a0"). simpl. lia.
  - intros Hend. unfold reformat_version.
    destruct (Str.endswith s "-alpha") eqn:E;
      [by apply endswith_spec in E|]. split.
    + apply (replace_from_replaced_all "-" "alpha").
    + apply (replace_alpha_length "a"). simpl. lia.
  - intros Hocc. apply reformat_version_no_occ.
    destruct (Str.occurs "-alpha" s) eqn:E; [|done].
    by apply occurs_spec in E.
Qed.

Lemma reformat_version_spec_witness :
  (replaced_all "-alpha" "a0" "2.0.0-alpha" "2.0.0a0"
   ∧ String.length "2.0.0a0" + 4 * 1 = String.length "2.0.0-alpha")
  ∧ (replaced_all "-alpha" "a" "2.0.0-alpha1" "2.0.0a1"
     ∧ String.length "2.0.0a1" + 5 * 1 = String.length "2.0.0-alpha1")
  ∧ reformat_version "2.0.0" = "2.0.0".
Proof.
  split; [|split].
  - apply (proj1 (reformat_version_spec "2.0.0-alpha")). by exists "2.0.0".
  - apply (proj1 (proj2 (reformat_version_spec "2.0.0-alpha1"))).
    intros [t Ht]. apply (f_equal (λ s, Str.endswith s "-alpha")) in Ht.
    rewrite (proj2 (endswith_spec (t +:+ "-alpha") "-alpha")) in Ht
      by (by exists t).
    vm_compute in Ht. discriminate.
  - apply (proj2 (proj2 (reformat_version_spec "2.0.0"))).
    intros H%occurs_spec. vm_compute in H. discriminate.
Defined.

(** C4, as stated, fails: normalising "--alphalpha" gives "-alpha", and
    normalising that gives "a0". *)
Lemma reformat_version_not_idempotent :
  reformat_version "--alphalpha" = "-alpha"
  ∧ reformat_version (reformat_version "--alphalpha") = "a0"
  ∧ reformat_version (reformat_version "--alphalpha")
    ≠ reformat_version "--alphalpha".
Proof. repeat split. vm_compute. discriminate. Qed.

Lemma count_char_app (c : ascii) (s t : string) :
  Str.count_char c (s +:+ t) = Str.count_char c s + Str.count_char c t.
Proof. induction s as [|d s IH]; simpl; [done|]. rewrite IH. lia. Qed.

Lemma prefix_cons_ne (a c : ascii) (p s : string) :
  a ≠ c → String.prefix (String a p) (String c s) = false.
Proof.
  intros Hne. cbn [String.prefix]. by destruct (ascii_dec a c).
Qed.

Lemma no_dash_no_occ (s : string) :
  Str.count_char "-" s = 0 → Str.occurs "-alpha" s = false.
Proof.
  induction s as [|c s IH]; [done|]. cbn [Str.count_char Str.occurs].
  destruct (decide (c = "-"%char)) as [->|Hc]; [intros; lia|]. intros H.
  rewrite IH by lia. by rewrite prefix_cons_ne.
Qed.

(** On a string with at most one hyphen the scan leaves no "-alpha"
    behind. *)
Lemma replace_alpha_one_dash (new s : string) :
  Str.count_char "-" new = 0 →
  Str.count_char "-" s ≤ 1 →
  Str.occurs "-alpha" (Str.replace s "-alpha" new) = false.
Proof.
  intros Hnew. rewrite replace_alpha.
  cut ((Str.count_char "-" s = 0 → Str.replace_from "-alpha" new 0 s = s)
       ∧ Str.count_char "-" (Str.replace_from "-alpha" new 0 s)
         ≤ Str.count_char "-" s
       ∧ (Str.count_char "-" s ≤ 1 →
          Str.occurs "-alpha" (Str.replace_from "-alpha" new 0 s) = false));
    [tauto|].
  apply (replace_from_ind "-" "alpha" new (λ s r,
    (Str.count_char "-" s = 0 → r = s)
    ∧ Str.count_char "-" r ≤ Str.count_char "-" s
    ∧ (Str.count_char "-" s ≤ 1 → Str.occurs "-alpha" r = false))).
  - done.
  - intros c u r Hp (IH1 & IH2 & IH3). cbn [Str.count_char Str.occurs].
    split; [|split].
    + intros H. f_equal. apply IH1. lia.
    + lia.
    + intros H. rewrite IH3 by lia. rewrite orb_false_r.
      destruct (decide (c = "-"%char)) as [->|Hc].
      * rewrite IH1 by lia. done.
      * by rewrite prefix_cons_ne.
  - intros u r (IH1 & IH2 & IH3). rewrite !count_char_app.
    change (Str.count_char "-" "-alpha") with 1. split; [|split].
    + lia.
    + lia.
    + intros H. apply no_dash_no_occ. rewrite count_char_app.
      rewrite IH1 by lia. lia.
Qed.

(** C4, amended: a second normalisation changes nothing exactly when the
    first result contains no "-alpha"; this is the case for every version
    with at most one hyphen, and a version without "-alpha" is returned
    unchanged. *)
Theorem reformat_version_idempotent_iff (s : string) :
  (reformat_version (reformat_version s) = reformat_version s
   ↔ Str.occurs "-alpha" (reformat_version s) = false)
  ∧ (Str.count_char "-" s ≤ 1 →
     reformat_version (reformat_version s) = reformat_version s)
  ∧ (Str.occurs "-alpha" s = false → reformat_version s = s).
Proof.
  assert (Str.occurs "-alpha" (reformat_version s) = false →
          reformat_version (reformat_version s) = reformat_version s) as Hback
    by apply reformat_version_no_occ.
  split; [split|split].
  - intros Heq. destruct (Str.occurs "-alpha" (reformat_version s)) eqn:E;
      [|done].
    apply (proj2 (reformat_version_length _)) in E. rewrite Heq in E. lia.
  - done.
  - intros Hdash. apply Hback. unfold reformat_version at 1.
    destruct (Str.endswith s "-alpha"); by apply replace_alpha_one_dash.
  - apply reformat_version_no_occ.
Qed.

Lemma reformat_version_idempotent_iff_witness :
  reformat_version (reformat_version "2.0.0-alpha")
  = reformat_version "2.0.0-alpha".
Proof.
  apply (proj1 (proj2 (reformat_version_idempotent_iff "2.0.0-alpha"))).
  vm_compute. lia.
Defined.

(** ** Loops over dictionaries *)

Lemma res_bind_ok {A B} (a : A) (f : A → res B) : (Ok a ≫= f) = f a.
Proof. done. Qed.

(** A loop whose body stores [f k v] under [k], or leaves the
    dictionary alone when [f k v] is [None], builds [map_imap f d]. *)
Lemma for_items_imap {V W} (f : string → V → option W)
    (body : string → V → gmap string W → res (gmap string W))
    (d : gmap string V) :
  (∀ k v s, body k v s = Ok (match f k v with
                             | Some w => <[k:=w]> s
                             | None => s
                             end)) →
  for_items d body ∅ = Ok (map_imap f d).
Proof.
  intros Hbody. unfold for_items.
  apply (map_fold_weak_ind (λ r m, r = Ok (map_imap f m))).
  - by rewrite map_imap_empty.
  - intros k v m r Hk ->. rewrite res_bind_ok, Hbody.
    destruct (f k v) as [w|] eqn:Hf.
    + by rewrite (map_imap_insert_Some _ _ _ _ w).
    + rewrite map_imap_insert_None by done.
      by rewrite delete_id by (by rewrite map_lookup_imap, Hk).
Qed.

(** ** [is_compat] *)

Lemma is_compat_ok (compat : submap) (name version : string) :
  is_compat compat name version = Ok (listed compat name version).
Proof.
  unfold is_compat, contains, getitem, listed.
  destruct (compat !! name) as [vs|] eqn:E.
  - by rewrite bool_decide_eq_true_2 by eauto.
  - by rewrite bool_decide_eq_false_2 by (by intros [??]).
Qed.

Lemma listed_true (compat : submap) (name version : string) :
  listed compat name version = true
  ↔ ∃ vs, compat !! name = Some vs ∧ version ∈ vs.
Proof.
  unfold listed. destruct (compat !! name) as [vs|].
  - rewrite bool_decide_eq_true. split.
    + intros Hin. by exists vs.
    + by intros (vs' & [= <-] & Hin).
  - split; [done|]. by intros (vs & [=] & _).
Qed.

(** C1: [is_compat] never raises, and it returns [True] exactly when
    [name] is a key of the sub-map and [version] is an element of the list
    stored under it: [True] for every listed pair, [False] for a version
    that is not in the list of its model. *)
Theorem is_compat_spec (compat : submap) (name version : string) :
  (∃ b, is_compat compat name version = Ok b
        ∧ (b = true ↔ ∃ vs, compat !! name = Some vs ∧ version ∈ vs))
  ∧ (∀ vs, compat !! name = Some vs → version ∈ vs →
       is_compat compat name version = Ok true)
  ∧ (∀ vs, compat !! name = Some vs → version ∉ vs →
       is_compat compat name version = Ok false)
  ∧ (compat !! name = None → is_compat compat name version = Ok false).
Proof.
  rewrite is_compat_ok. repeat split.
  - exists (listed compat name version). split; [done|apply listed_true].
  - intros vs Hvs Hin. f_equal. apply listed_true. eauto.
  - intros vs Hvs Hin. f_equal. unfold listed. rewrite Hvs.
    by apply bool_decide_eq_false_2.
  - intros Hnone. unfold listed. by rewrite Hnone.
Qed.

Lemma is_compat_spec_witness :
  is_compat {[ "en_core_web_sm" := ["2.0.0"; "2.0.1"] ]} "en_core_web_sm" "2.0.1"
    = Ok true
  ∧ is_compat {[ "en_core_web_sm" := ["2.0.0"; "2.0.1"] ]} "en_core_web_sm" "1.0.0"
    = Ok false
  ∧ is_compat {[ "en_core_web_sm" := ["2.0.0"; "2.0.1"] ]} "de_core_news_sm" "2.0.0"
    = Ok false.
Proof.
  split; [|split].
  - apply (proj1 (proj2 (is_compat_spec _ _ _)) ["2.0.0"; "2.0.1"]).
    + reflexivity.
    + apply (bool_decide_unpack _). by vm_compute.
  - apply (proj1 (proj2 (proj2 (is_compat_spec _ _ _))) ["2.0.0"; "2.0.1"]).
    + reflexivity.
    + apply (bool_decide_unpack _). by vm_compute.
  - apply (proj2 (proj2 (proj2 (is_compat_spec _ _ _)))). reflexivity.
Defined.

(** ** The normalised compatibility table *)

(** The inner loop rewrites, inside the sub-map stored under [spacy_v],
    the version list of every model of [models]. *)
Lemma normalize_inner (spacy_v : string) (models : submap) (compat : matrix) :
  map_fold (λ model model_vs compat,
    alter (insert model (reformat_version <$> model_vs)) spacy_v compat)
    compat models
  = alter (λ inner, normalized models ∪ inner) spacy_v compat.
Proof.
  apply (map_fold_weak_ind (λ r m,
    r = alter (λ inner, normalized m ∪ inner) spacy_v compat)).
  - unfold normalized. rewrite fmap_empty. symmetry. apply alter_id.
    intros inner _. by rewrite (left_id_L ∅ (∪)).
  - intros model model_vs m r Hm ->. rewrite alter_alter_eq.
    apply alter_ext. intros inner _. unfold normalized. simpl.
    by rewrite fmap_insert, insert_union_l.
Qed.

Lemma normalize_table_spec (table : matrix) :
  (∀ model, model ∈ (normalize_table table).1
            ↔ ∃ spacy_v models, table !! spacy_v = Some models
                                ∧ is_Some (models !! model))
  ∧ (normalize_table table).2 = normalized <$> table.
Proof.
  unfold normalize_table.
  assert (∀ init m : matrix,
    let r := map_fold (λ spacy_v models '(all_models, compat),
      (all_models ∪ dom models,
       map_fold (λ model model_vs compat,
         alter (insert model (reformat_version <$> model_vs)) spacy_v compat)
         compat models)) (∅, init) m in
    (∀ model, model ∈ r.1
              ↔ ∃ spacy_v models, m !! spacy_v = Some models
                                  ∧ is_Some (models !! model))
    ∧ (∀ spacy_v, r.2 !! spacy_v
         = (λ inner, match m !! spacy_v with
                     | Some models => normalized models ∪ inner
                     | None => inner
                     end) <$> init !! spacy_v)) as Hloop.
  { intros init m r. subst r.
    apply (map_fold_weak_ind (λ r m,
      (∀ model, model ∈ r.1
                ↔ ∃ spacy_v models, m !! spacy_v = Some models
                                    ∧ is_Some (models !! model))
      ∧ (∀ spacy_v, r.2 !! spacy_v
           = (λ inner, match m !! spacy_v with
                       | Some models => normalized models ∪ inner
                       | None => inner
                       end) <$> init !! spacy_v))).
    - split.
      + intros model. simpl. split; [by intros ?%not_elem_of_empty|].
        intros (? & ? & H & _). by rewrite lookup_empty in H.
      + intros spacy_v. simpl. rewrite lookup_empty.
        by destruct (init !! spacy_v).
    - intros v models m' [all_models compat] Hv [IH1 IH2]. simpl in *. split.
      + intros model. rewrite elem_of_union, IH1, elem_of_dom. split.
        * intros [(v' & models' & Hv' & Hm)|Hm].
          -- exists v', models'. split; [|done].
             rewrite lookup_insert_ne; [done|]. intros ->. by rewrite Hv in Hv'.
          -- exists v, models. by rewrite lookup_insert_eq.
        * intros (v' & models' & Hv' & Hm).
          destruct (decide (v = v')) as [<-|Hne].
          -- rewrite lookup_insert_eq in Hv'. injection Hv' as <-. by right.
          -- rewrite lookup_insert_ne in Hv' by done. left. eauto.
      + intros v'. rewrite normalize_inner, lookup_alter, lookup_insert.
        destruct (decide (v = v')) as [<-|Hne].
        * rewrite IH2, Hv. by destruct (init !! v).
        * apply IH2. }
  destruct (Hloop table table) as [H1 H2]. split; [done|].
  apply map_eq. intros v. rewrite H2, lookup_fmap.
  destruct (table !! v) as [models|]; [|done]. simpl. f_equal.
  apply map_eq. intros model. unfold normalized.
  rewrite lookup_union, lookup_fmap. by destruct (models !! model).
Qed.

Lemma normalize_table_lookup (table : matrix) (spacy_v : string) :
  (normalize_table table).2 !! spacy_v
  = normalized <$> table !! spacy_v.
Proof. by rewrite (proj2 (normalize_table_spec table)), lookup_fmap. Qed.

(** ** The scanners *)

Lemma replace_hyphen (s : string) :
  Str.replace s "-" "_"
  = Str.map_chars (λ c, if decide (c = "-"%char) then "_"%char else c) s.
Proof.
  change (Str.replace s "-" "_") with (Str.replace_from "-" "_" 0 s).
  apply (replace_from_ind "-" "" "_" (λ s r, r = Str.map_chars _ s)).
  - done.
  - intros c u r Hp ->. simpl. f_equal. rewrite decide_False; [done|].
    intros ->. simpl in Hp. by rewrite prefix_empty in Hp.
  - by intros u r ->.
Qed.

Lemma get_model_pkgs_ok (e : environment) (compat : submap)
    (all_models : gset string) :
  get_model_pkgs e compat all_models
  = Ok (map_imap (λ pkg_name pkg_data,
          let package := Str.replace pkg_name "-" "_" in
          if decide (package ∈ all_models)
          then Some (Entry.Make package (Dist.version pkg_data)
                       (listed compat package (Dist.version pkg_data)))
          else None) (by_key e)).
Proof.
  apply for_items_imap. intros k v s. cbv zeta.
  destruct (decide _); [|done]. by rewrite is_compat_ok.
Qed.

Lemma get_model_links_ok (e : environment) (compat : submap) :
  get_model_links e compat
  = Ok (match get_data_path e with
        | Some data_path =>
            map_imap (λ link model,
              (λ meta,
                 let name := Meta.lang meta +:+ "_" +:+ Meta.name meta in
                 Entry.Make name (Meta.version meta)
                   (listed compat name (Meta.version meta)))
              <$> meta_json model)
              (filter (λ p, is_model_path p.1 p.2 = true) (iterdir data_path))
        | None => ∅
        end).
Proof.
  unfold get_model_links. destruct (get_data_path e) as [data_path|]; [|done].
  apply for_items_imap. intros k v s.
  destruct (meta_json v) as [meta|]; [|done]. by rewrite is_compat_ok.
Qed.

Lemma get_model_pkgs_entry (e : environment) (compat : submap)
    (all_models : gset string) (pkgs : gmap string Entry.t) k d :
  get_model_pkgs e compat all_models = Ok pkgs →
  pkgs !! k = Some d →
  Entry.compat d = listed compat (Entry.name d) (Entry.version d).
Proof.
  rewrite get_model_pkgs_ok. intros [= <-]. rewrite map_lookup_imap.
  destruct (by_key e !! k) as [pkg_data|]; [|done]. cbv zeta. simpl.
  destruct (decide _); [|done]. by intros [= <-].
Qed.

Lemma get_model_links_entry (e : environment) (compat : submap)
    (links : gmap string Entry.t) k d :
  get_model_links e compat = Ok links →
  links !! k = Some d →
  Entry.compat d = listed compat (Entry.name d) (Entry.version d).
Proof.
  rewrite get_model_links_ok. intros [= <-].
  destruct (get_data_path e) as [data_path|]; [|done].
  rewrite map_lookup_imap.
  destruct (filter _ _ !! k) as [p|]; [|done]. simpl.
  destruct (meta_json p) as [meta|]; [|done]. by intros [= <-].
Qed.

(** C7: [get_model_links] always returns a dictionary.  It is empty when
    the data directory does not exist; an entry of the data directory
    without a [meta.json] contributes nothing and raises nothing; the
    links are exactly the model paths that hold a [meta.json], each with
    the name [lang + "_" + name] of its metadata, the version of its
    metadata, and the compatibility that [is_compat] computes for them. *)
Theorem get_model_links_spec (e : environment) (compat : submap) :
  ∃ links, get_model_links e compat = Ok links
  ∧ (get_data_path e = None → links = ∅)
  ∧ (∀ data_path link p,
       get_data_path e = Some data_path →
       iterdir data_path !! link = Some p →
       meta_json p = None → links !! link = None)
  ∧ (∀ link entry,
       links !! link = Some entry ↔
       ∃ data_path p meta,
         get_data_path e = Some data_path
         ∧ iterdir data_path !! link = Some p
         ∧ is_model_path link p = true
         ∧ meta_json p = Some meta
         ∧ Entry.name entry = Meta.lang meta +:+ "_" +:+ Meta.name meta
         ∧ Entry.version entry = Meta.version meta
         ∧ is_compat compat (Entry.name entry) (Entry.version entry)
           = Ok (Entry.compat entry)).
Proof.
  rewrite get_model_links_ok. eexists; split; [done|].
  destruct (get_data_path e) as [data_path|]; (split; [|split]).
  - done.
  - intros ? link p [= <-] Hp Hmeta. rewrite map_lookup_imap.
    destruct (filter _ _ !! link) as [p'|] eqn:E; [|done].
    apply map_lookup_filter_Some in E as [E _].
    rewrite Hp in E. injection E as <-. simpl. by rewrite Hmeta.
  - intros link entry. rewrite map_lookup_imap. split.
    + intros H. destruct (filter _ _ !! link) as [p|] eqn:E; [|done].
      apply map_lookup_filter_Some in E as [E Hpath]. simpl in H, Hpath.
      destruct (meta_json p) as [meta|] eqn:Hmeta; [|done].
      injection H as <-. exists data_path, p, meta.
      by rewrite is_compat_ok.
    + intros (? & p & meta & [= <-] & Hp & Hpath & Hmeta & Hn & Hv & Hc).
      rewrite is_compat_ok in Hc. injection Hc as Hc.
      rewrite (proj2 (map_lookup_filter_Some _ _ link p)) by done.
      simpl. rewrite Hmeta. simpl. destruct entry; simpl in *. by subst.
  - done.
  - by intros ? ? ? [=].
  - intros link entry. rewrite lookup_empty. split; [done|].
    by intros (? & ? & ? & [=] & _).
Qed.

(** C8: [get_model_pkgs] always returns a dictionary; it holds exactly
    the installed packages whose name, with every hyphen replaced by an
    underscore, is in [all_models], and each entry records that name, the
    installed version and the compatibility that [is_compat] computes
    for them against [compat].  The set [all_models] that [validate]
    passes holds the model names of every spaCy version of the table. *)
Theorem get_model_pkgs_spec (e : environment) (compat : submap)
    (all_models : gset string) :
  (∀ table model,
     model ∈ (normalize_table table).1
     ↔ ∃ spacy_v models, table !! spacy_v = Some models
                         ∧ is_Some (models !! model))
  ∧ ∃ pkgs, get_model_pkgs e compat all_models = Ok pkgs
  ∧ ∀ pkg_name entry,
      pkgs !! pkg_name = Some entry ↔
      ∃ pkg_data package,
        by_key e !! pkg_name = Some pkg_data
        ∧ package
          = Str.map_chars (λ c, if decide (c = "-"%char) then "_"%char else c)
              pkg_name
        ∧ package ∈ all_models
        ∧ Entry.name entry = package
        ∧ Entry.version entry = Dist.version pkg_data
        ∧ is_compat compat package (Dist.version pkg_data)
          = Ok (Entry.compat entry).
Proof.
  split; [intros table; apply normalize_table_spec|].
  rewrite get_model_pkgs_ok. eexists; split; [done|].
  intros pkg_name entry. rewrite map_lookup_imap. cbv zeta.
  rewrite <- replace_hyphen.
  generalize (Str.replace pkg_name "-" "_"); intros package'. split.
  - intros H. destruct (by_key e !! pkg_name) as [pkg_data|]; [|done].
    simpl in H. destruct (decide _) as [Hin|]; [|done]. injection H as <-.
    exists pkg_data, package'. by rewrite is_compat_ok.
  - intros (pkg_data & package & -> & -> & Hin & Hn & Hv & Hc).
    rewrite is_compat_ok in Hc. injection Hc as Hc. simpl.
    rewrite decide_True by done. destruct entry; simpl in *. by subst.
Qed.

(** ** Classification of the incompatible models *)

Lemma elem_of_incompat_models (model_pkgs model_links : gmap string Entry.t)
    (m : string) :
  m ∈ incompat_models model_pkgs model_links
  ↔ ∃ k d, (model_pkgs !! k = Some d ∨ model_links !! k = Some d)
           ∧ Entry.compat d = false ∧ Entry.name d = m.
Proof.
  unfold incompat_models.
  rewrite elem_of_union, !elem_of_list_to_set, !list_elem_of_fmap. split.
  - intros [([k d] & -> & H)|([k d] & -> & H)];
      apply list_elem_of_filter in H as [Hc H%elem_of_map_to_list];
      exists k, d; auto.
  - intros (k & d & [H|H] & Hc & <-); [left|right]; exists (k, d);
      (split; [done|]); apply list_elem_of_filter;
      by rewrite elem_of_map_to_list.
Qed.

Lemma contains_true {V} (d : gmap string V) (k : string) :
  contains d k = true ↔ is_Some (d !! k).
Proof. unfold contains. by rewrite bool_decide_eq_true. Qed.

Lemma contains_false {V} (d : gmap string V) (k : string) :
  contains d k = false ↔ d !! k = None.
Proof.
  unfold contains. by rewrite bool_decide_eq_false, eq_None_not_Some.
Qed.

Lemma elem_of_na_models (models : gset string) (current_compat : submap)
    (m : string) :
  m ∈ na_models models current_compat ↔ m ∈ models ∧ current_compat !! m = None.
Proof.
  unfold na_models.
  rewrite list_elem_of_filter, elem_of_elements, contains_false. tauto.
Qed.

Lemma elem_of_update_models (models : gset string) (current_compat : submap)
    (m : string) :
  m ∈ update_models models current_compat
  ↔ m ∈ models ∧ is_Some (current_compat !! m).
Proof.
  unfold update_models.
  rewrite list_elem_of_filter, elem_of_elements, contains_true. tauto.
Qed.

(** C2: the incompatible model names are the names of the incompatible
    packages and links; each of them is in exactly one of the two lists,
    in [na_models] when it is not a key of the current sub-map and in
    [update_models] when it is, and the lists hold nothing else and no
    name twice.  For what the scanners return: a model installed at a
    version that its entry in the current sub-map does not list is in
    [update_models] and not in [na_models]; a model whose name is not a
    key of the current sub-map is in [na_models]. *)
Theorem classification_spec (e : environment) (current_compat : submap)
    (all_models : gset string) (model_pkgs model_links : gmap string Entry.t) :
  let incompat := incompat_models model_pkgs model_links in
  let na := na_models incompat current_compat in
  let update := update_models incompat current_compat in
  (∀ m, m ∈ incompat
        ↔ ∃ k d, (model_pkgs !! k = Some d ∨ model_links !! k = Some d)
                 ∧ Entry.compat d = false ∧ Entry.name d = m)
  ∧ (∀ m, m ∈ incompat →
          (current_compat !! m = None → m ∈ na ∧ m ∉ update)
          ∧ (is_Some (current_compat !! m) → m ∈ update ∧ m ∉ na))
  ∧ (∀ m, m ∈ na ∨ m ∈ update → m ∈ incompat)
  ∧ NoDup na ∧ NoDup update
  ∧ (get_model_pkgs e current_compat all_models = Ok model_pkgs →
     get_model_links e current_compat = Ok model_links →
     ∀ k d, model_pkgs !! k = Some d ∨ model_links !! k = Some d →
       (∀ vs, current_compat !! Entry.name d = Some vs →
              Entry.version d ∉ vs →
              Entry.name d ∈ update ∧ Entry.name d ∉ na)
       ∧ (current_compat !! Entry.name d = None →
          Entry.name d ∈ na ∧ Entry.name d ∉ update)).
Proof.
  intros incompat na update. subst na update.
  split; [apply elem_of_incompat_models|].
  split; [|split; [|split; [|split]]].
  - intros m Hm. rewrite !elem_of_na_models, !elem_of_update_models.
    split; intros H.
    + split; [done|]. intros [_ [? Hs]]. by rewrite H in Hs.
    + split; [done|]. intros [_ Hn]. destruct H as [? Hs]. by rewrite Hn in Hs.
  - intros m. rewrite elem_of_na_models, elem_of_update_models. tauto.
  - apply NoDup_filter, NoDup_elements.
  - apply NoDup_filter, NoDup_elements.
  - intros Hpkgs Hlinks k d Hd.
    assert (Entry.compat d
            = listed current_compat (Entry.name d) (Entry.version d)) as Hc.
    { destruct Hd as [Hd|Hd].
      - by eapply get_model_pkgs_entry.
      - by eapply get_model_links_entry. }
    symmetry in Hc.
    split.
    + intros vs Hvs Hnot.
      assert (Entry.name d ∈ incompat) as Hin.
      { apply elem_of_incompat_models. exists k, d. repeat split; [done|].
        rewrite <- Hc. unfold listed. rewrite Hvs.
        by apply bool_decide_eq_false_2. }
      rewrite elem_of_na_models, elem_of_update_models.
      split; [split; [done|by exists vs]|]. intros [_ Hn]. by rewrite Hn in Hvs.
    + intros Hnone.
      assert (Entry.name d ∈ incompat) as Hin.
      { apply elem_of_incompat_models. exists k, d. repeat split; [done|].
        rewrite <- Hc. unfold listed. by rewrite Hnone. }
      rewrite elem_of_na_models, elem_of_update_models.
      split; [done|]. intros [_ [? Hs]]. by rewrite Hnone in Hs.
Qed.

(** ** [get_model_row] *)

Lemma get_model_row_compatible (e : environment) (compat : submap)
    (name : string) (data : Entry.t) (type : string) :
  Entry.compat data = true →
  get_model_row e compat name data type
  = Ok (get_row type name (Entry.name data) (tpl_green (Entry.version data))
          (tpl_green (check_mark e))).
Proof. intros H. unfold get_model_row. by rewrite H. Qed.

(** C10: the row of an incompatible model is rendered with the hint
    "n/a" when its name is not a key of the sub-map and with the first
    listed version when its list is not empty, and rendering raises
    [IndexError] when the name is a key with an empty list. *)
Theorem get_model_row_incompatible (e : environment) (compat : submap)
    (name : string) (data : Entry.t) (type : string) :
  Entry.compat data = false →
  (compat !! Entry.name data = None →
   get_model_row e compat name data type
   = Ok (get_row type name (Entry.name data) (tpl_red (Entry.version data))
           "--> n/a"))
  ∧ (∀ v vs, compat !! Entry.name data = Some (v :: vs) →
       get_model_row e compat name data type
       = Ok (get_row type name (Entry.name data)
               (tpl_red (Entry.version data)) ("--> " +:+ v)))
  ∧ (compat !! Entry.name data = Some [] →
     get_model_row e compat name data type = Raise IndexError).
Proof.
  intros Hc. unfold get_model_row, dict_get. rewrite Hc.
  split; [|split]; [intros -> | intros v vs -> | intros ->]; done.
Qed.

Lemma get_model_row_incompatible_witness :
  get_model_row (example_env "2.0.0" 200 None ∅) {[ "en_core_web_sm" := ["2.0.0"] ]}
    "en-old" (Entry.Make "en_old" "1.0.0a0" false) "package"
  = Ok (get_row "package" "en-old" "en_old" (tpl_red "1.0.0a0") "--> n/a")
  ∧ get_model_row (example_env "2.0.0" 200 None ∅)
      {[ "en_core_web_sm" := ["2.0.0"] ]}
      "en" (Entry.Make "en_core_web_sm" "1.0.0" false) "link"
    = Ok (get_row "link" "en" "en_core_web_sm" (tpl_red "1.0.0") "--> 2.0.0")
  ∧ get_model_row (example_env "2.0.0" 200 None ∅) {[ "en_core_web_sm" := [] ]}
      "en" (Entry.Make "en_core_web_sm" "1.0.0" false) "link"
    = Raise IndexError.
Proof.
  split; [|split].
  - apply (proj1 (get_model_row_incompatible
             (example_env "2.0.0" 200 None ∅) {[ "en_core_web_sm" := ["2.0.0"] ]}
             "en-old" (Entry.Make "en_old" "1.0.0a0" false) "package" eq_refl)).
    reflexivity.
  - apply (proj1 (proj2 (get_model_row_incompatible
             (example_env "2.0.0" 200 None ∅) {[ "en_core_web_sm" := ["2.0.0"] ]}
             "en" (Entry.Make "en_core_web_sm" "1.0.0" false) "link" eq_refl))
             "2.0.0" []).
    reflexivity.
  - apply (proj2 (proj2 (get_model_row_incompatible
             (example_env "2.0.0" 200 None ∅) {[ "en_core_web_sm" := [] ]}
             "en" (Entry.Make "en_core_web_sm" "1.0.0" false) "link" eq_refl))).
    reflexivity.
Defined.

(** ** [validate] *)

Lemma run_bind {A B} (m : M A) (f : A → M B) (w : world) :
  run (m ≫= f) w
  = match run m w with
    | (w', Ok a) => run (f a) w'
    | (w', Raise e) => (w', Raise e)
    end.
Proof. done. Qed.

(** C6: when the status code of the response is not 200, the command
    issues the one request, prints "Couldn't fetch compatibility table."
    under the title "Server error (<code>)" and exits with code 1;
    nothing else is printed or requested, whatever the response body,
    the data directory and the installed packages are. *)
Theorem validate_fetch_error (e : environment) (w : world) :
  status_code (http_response e) ≠ 200%Z →
  run (validate e) w
  = (World
       (stdout w
        ++ [Prints ["Couldn't fetch compatibility table."]
              (Some ("Server error ("
                     +:+ pretty (status_code (http_response e)) +:+ ")"))])
       (requests w ++ [about_compatibility e]),
     Raise (SystemExit 1)).
Proof.
  intros Hstatus. unfold validate. rewrite !run_bind.
  cbn [run requests_get]. rewrite run_bind.
  rewrite bool_decide_eq_true_2 by done. done.
Qed.

Lemma validate_fetch_error_witness :
  run (validate (example_env "2.0.0" 503 (Some example_data) example_packages))
    world0
  = (World [Prints ["Couldn't fetch compatibility table."]
              (Some "Server error (503)")]
       ["https://example.org/compatibility.json"],
     Raise (SystemExit 1)).
Proof.
  apply (validate_fetch_error
           (example_env "2.0.0" 503 (Some example_data) example_packages)
           world0).
  vm_compute. discriminate.
Defined.

(** C5, as stated, fails: with spaCy version 2.0.1 missing from the
    table, the command ends with the [KeyError] of the lookup
    [compat[about.__version__]], having printed nothing; it does not end
    by an exit of its own. *)
Lemma validate_missing_version_unhandled :
  example_table !! "2.0.1" = None
  ∧ run (validate (example_env "2.0.1" 200 (Some example_data) example_packages))
      world0
    = (World [] ["https://example.org/compatibility.json"],
       Raise (KeyError "2.0.1"))
  ∧ ∀ code,
      (run (validate
              (example_env "2.0.1" 200 (Some example_data) example_packages))
         world0).2
      ≠ Raise (SystemExit code).
Proof. split; [|split]; [by vm_compute..|]. intros code. by vm_compute. Qed.

(** C5, amended: when the response has status 200 and the spaCy version
    is not a key of the decoded table, the command ends with the
    unhandled [KeyError] of the lookup of that version; it has issued its
    one request and printed nothing. *)
Theorem validate_missing_version (e : environment) (w : world) :
  status_code (http_response e) = 200%Z →
  json_spacy (http_response e) !! about_version e = None →
  run (validate e) w
  = (World (stdout w) (requests w ++ [about_compatibility e]),
     Raise (KeyError (about_version e))).
Proof.
  intros Hstatus Hnone. unfold validate. rewrite !run_bind.
  cbn [run requests_get]. rewrite run_bind.
  rewrite bool_decide_eq_false_2 by (by intros []).
  cbn [run mret M_ret].
  pose proof (normalize_table_lookup (json_spacy (http_response e))
                (about_version e)) as Hl.
  destruct (normalize_table _) as [all_models compat]. simpl in Hl.
  rewrite run_bind. unfold lift, getitem. cbn [run].
  by rewrite Hl, Hnone.
Qed.

Lemma validate_missing_version_witness :
  run (validate (example_env "2.0.1" 200 (Some example_data) example_packages))
    world0
  = (World [] ["https://example.org/compatibility.json"],
     Raise (KeyError "2.0.1")).
Proof.
  apply (validate_missing_version
           (example_env "2.0.1" 200 (Some example_data) example_packages)
           world0); reflexivity.
Defined.

Lemma nonempty_dict_empty {V} : nonempty_dict (∅ : gmap string V) = false.
Proof. unfold nonempty_dict. by rewrite bool_decide_eq_true_2. Qed.

(** C9: when the response has status 200, the spaCy version is a key of
    the table and both scanners return empty dictionaries, the command
    prints its heading and then "No models found in your current
    environment." and exits with code 0: no table row, no update
    command, no unavailability notice and no hint about links is
    printed. *)
Theorem validate_no_models (e : environment) (w : world) (models : submap) :
  status_code (http_response e) = 200%Z →
  json_spacy (http_response e) !! about_version e = Some models →
  get_model_links e (normalized models) = Ok ∅ →
  get_model_pkgs e (normalized models)
    (normalize_table (json_spacy (http_response e))).1 = Ok ∅ →
  run (validate e) w
  = (World
       (stdout w
        ++ [Prints [package_dir e]
              (Some ("Installed models (spaCy v" +:+ about_version e +:+ ")"))
           ]
        ++ [Prints ["No models found in your current environment."] None])
       (requests w ++ [about_compatibility e]),
     Raise (SystemExit 0)).
Proof.
  intros Hstatus Hsome Hlinks Hpkgs. unfold validate. rewrite !run_bind.
  cbn [run requests_get]. rewrite run_bind.
  rewrite bool_decide_eq_false_2 by (by intros []).
  cbn [run mret M_ret].
  pose proof (normalize_table_lookup (json_spacy (http_response e))
                (about_version e)) as Hl.
  destruct (normalize_table _) as [all_models compat]. simpl in Hl, Hpkgs.
  rewrite Hsome in Hl. simpl in Hl.
  rewrite run_bind. unfold lift at 1. unfold getitem. cbn [run]. rewrite Hl.
  rewrite run_bind. unfold lift at 1. cbn [run]. rewrite Hlinks.
  rewrite run_bind. unfold lift at 1. cbn [run]. rewrite Hpkgs.
  cbv beta iota zeta. rewrite !run_bind.
  rewrite !(nonempty_dict_empty (V:=Entry.t)). cbn.
  by rewrite <- app_assoc.
Qed.

Lemma validate_no_models_witness :
  run (validate (example_env "2.0.0" 200 None {[ "requests" := Dist.Make "2.18.4" ]}))
    world0
  = (World
       [Prints ["/spacy"] (Some "Installed models (spaCy v2.0.0)");
        Prints ["No models found in your current environment."] None]
       ["https://example.org/compatibility.json"],
     Raise (SystemExit 0)).
Proof.
  apply (validate_no_models
           (example_env "2.0.0" 200 None {[ "requests" := Dist.Make "2.18.4" ]})
           world0 {[ "en_core_web_sm" := ["2.0.0"] ]});
    by vm_compute.
Defined.

(** ** The scenarios of the specification, on the example data *)

Example example_all_models :
  (normalize_table example_table).1 = {[ "en_core_web_sm"; "en_old" ]}.
Proof. by vm_compute. Qed.

Example example_links :
  get_model_links (example_env "2.0.0" 200 (Some example_data) ∅)
    (normalized {[ "en_core_web_sm" := ["2.0.0"] ]})
  = Ok {[ "en" := Entry.Make "en_core_web_sm" "1.0.0" false ]}.
Proof. by vm_compute. Qed.

Example example_pkgs :
  get_model_pkgs (example_env "2.0.0" 200 None example_packages)
    (normalized {[ "en_core_web_sm" := ["2.0.0"] ]})
    {[ "en_core_web_sm"; "en_old" ]}
  = Ok {[ "en-core-web-sm" := Entry.Make "en_core_web_sm" "1.0.0" false;
          "en-old" := Entry.Make "en_old" "1.0.0a0" false ]}.
Proof. by vm_compute. Qed.

Lemma get_model_links_spec_witness :
  ∃ links,
    get_model_links (example_env "2.0.0" 200 (Some example_data) ∅)
      (normalized {[ "en_core_web_sm" := ["2.0.0"] ]}) = Ok links
    ∧ links !! "tmp" = None
    ∧ links !! "en" = Some (Entry.Make "en_core_web_sm" "1.0.0" false).
Proof.
  destruct (get_model_links_spec
              (example_env "2.0.0" 200 (Some example_data) ∅)
              (normalized {[ "en_core_web_sm" := ["2.0.0"] ]}))
    as (links & Hok & _ & Hskip & Hspec).
  exists links. split; [done|]. split.
  - by apply (Hskip example_data "tmp" (DirEntry true None)).
  - apply Hspec.
    exists example_data, (DirEntry true (Some (Meta.Make "en" "core_web_sm" "1.0.0"))),
      (Meta.Make "en" "core_web_sm" "1.0.0").
    repeat split; by vm_compute.
Defined.

Lemma get_model_pkgs_spec_witness :
  ∃ pkgs,
    get_model_pkgs (example_env "2.0.0" 200 None example_packages)
      (normalized {[ "en_core_web_sm" := ["2.0.0"] ]})
      {[ "en_core_web_sm"; "en_old" ]} = Ok pkgs
    ∧ pkgs !! "en-core-web-sm"
      = Some (Entry.Make "en_core_web_sm" "1.0.0" false).
Proof.
  destruct (get_model_pkgs_spec
              (example_env "2.0.0" 200 None example_packages)
              (normalized {[ "en_core_web_sm" := ["2.0.0"] ]})
              {[ "en_core_web_sm"; "en_old" ]})
    as (_ & pkgs & Hok & Hspec).
  exists pkgs. split; [done|]. apply Hspec.
  exists (Dist.Make "1.0.0"), "en_core_web_sm".
  repeat split; by vm_compute.
Defined.

Lemma classification_spec_witness :
  ("en_core_web_sm"
     ∈ update_models
         (incompat_models
            {[ "en-core-web-sm" := Entry.Make "en_core_web_sm" "1.0.0" false;
               "en-old" := Entry.Make "en_old" "1.0.0a0" false ]}
            {[ "en" := Entry.Make "en_core_web_sm" "1.0.0" false ]})
         (normalized {[ "en_core_web_sm" := ["2.0.0"] ]})
   ∧ "en_core_web_sm"
     ∉ na_models
         (incompat_models
            {[ "en-core-web-sm" := Entry.Make "en_core_web_sm" "1.0.0" false;
               "en-old" := Entry.Make "en_old" "1.0.0a0" false ]}
            {[ "en" := Entry.Make "en_core_web_sm" "1.0.0" false ]})
         (normalized {[ "en_core_web_sm" := ["2.0.0"] ]}))
  ∧ ("en_old"
       ∈ na_models
           (incompat_models
              {[ "en-core-web-sm" := Entry.Make "en_core_web_sm" "1.0.0" false;
                 "en-old" := Entry.Make "en_old" "1.0.0a0" false ]}
              {[ "en" := Entry.Make "en_core_web_sm" "1.0.0" false ]})
           (normalized {[ "en_core_web_sm" := ["2.0.0"] ]})
     ∧ "en_old"
       ∉ update_models
           (incompat_models
              {[ "en-core-web-sm" := Entry.Make "en_core_web_sm" "1.0.0" false;
                 "en-old" := Entry.Make "en_old" "1.0.0a0" false ]}
              {[ "en" := Entry.Make "en_core_web_sm" "1.0.0" false ]})
           (normalized {[ "en_core_web_sm" := ["2.0.0"] ]})).
Proof.
  pose proof (classification_spec
    (example_env "2.0.0" 200 (Some example_data) example_packages)
    (normalized {[ "en_core_web_sm" := ["2.0.0"] ]})
    {[ "en_core_web_sm"; "en_old" ]}
    {[ "en-core-web-sm" := Entry.Make "en_core_web_sm" "1.0.0" false;
       "en-old" := Entry.Make "en_old" "1.0.0a0" false ]}
    {[ "en" := Entry.Make "en_core_web_sm" "1.0.0" false ]})
    as (_ & _ & _ & _ & _ & H).
  assert (get_model_pkgs
            (example_env "2.0.0" 200 (Some example_data) example_packages)
            (normalized {[ "en_core_web_sm" := ["2.0.0"] ]})
            {[ "en_core_web_sm"; "en_old" ]}
          = Ok {[ "en-core-web-sm" := Entry.Make "en_core_web_sm" "1.0.0" false;
                  "en-old" := Entry.Make "en_old" "1.0.0a0" false ]}) as Hpkgs
    by (by vm_compute).
  assert (get_model_links
            (example_env "2.0.0" 200 (Some example_data) example_packages)
            (normalized {[ "en_core_web_sm" := ["2.0.0"] ]})
          = Ok {[ "en" := Entry.Make "en_core_web_sm" "1.0.0" false ]}) as Hlinks
    by (by vm_compute).
  specialize (H Hpkgs Hlinks). split.
  - apply (proj1 (H "en" (Entry.Make "en_core_web_sm" "1.0.0" false)
                    (or_intror eq_refl)) ["2.0.0"]).
    + by vm_compute.
    + apply (bool_decide_unpack _). by vm_compute.
  - apply (proj2 (H "en-old" (Entry.Make "en_old" "1.0.0a0" false)
                    (or_introl eq_refl))).
    by vm_compute.
Defined.

(** * Further properties of the code *)

(** ** [reformat_version] *)

(** X1: [reformat_version] never lengthens a version, and the versions it
    leaves unchanged are exactly those in which "-alpha" does not
    occur. *)
Theorem reformat_version_fixed_iff (s : string) :
  String.length (reformat_version s) ≤ String.length s
  ∧ (reformat_version s = s ↔ ¬ ∃ p q, s = p +:+ "-alpha" +:+ q).
Proof.
  destruct (reformat_version_length s) as [Hle Hlt]. split; [done|].
  rewrite <- occurs_spec. split.
  - intros Heq Hocc. specialize (Hlt Hocc). rewrite Heq in Hlt. lia.
  - intros Hocc. apply reformat_version_no_occ.
    by destruct (Str.occurs "-alpha" s).
Qed.

(** A pattern without hyphen that is not a prefix of [u] is not a prefix
    of [u] followed by a hyphen either. *)
Lemma prefix_before_hyphen (p u x : string) :
  Str.count_char "-" p = 0 →
  String.prefix p u = false →
  String.prefix p (u +:+ String "-" x) = false.
Proof.
  revert u. induction p as [|a p IH]; intros u Hp Hpre.
  - by rewrite prefix_empty in Hpre.
  - cbn [Str.count_char] in Hp.
    destruct (decide (a = "-"%char)) as [->|Ha]; [lia|].
    destruct u as [|d u]; simpl.
    + by apply prefix_cons_ne.
    + cbn [String.prefix] in Hpre |- *.
      destruct (ascii_dec a d); [|done]. apply IH; [lia|done].
Qed.

(** No occurrence of "-alpha" can begin before a final "-alpha" and run
    into it. *)
Lemma prefix_alpha_straddle c (u : string) :
  String.prefix "-alpha" (String c u) = false →
  String.prefix "-alpha" (String c (u +:+ "-alpha")) = false.
Proof.
  intros H. destruct (decide ("-"%char = c)) as [<-|Hc];
    [|by apply prefix_cons_ne].
  cbn [String.prefix] in H |- *. destruct (ascii_dec "-" "-"); [|done].
  by apply (prefix_before_hyphen "alpha").
Qed.

Lemma replace_alpha_suffix (new t : string) :
  Str.replace (t +:+ "-alpha") "-alpha" new
  = Str.replace t "-alpha" new +:+ new.
Proof.
  rewrite !replace_alpha.
  apply (replace_from_ind "-" "alpha" new (λ t r,
    Str.replace_from "-alpha" new 0 (t +:+ "-alpha") = r +:+ new)).
  - simpl String.append at 1.
    rewrite <- (append_empty_r "-alpha") at 2.
    rewrite (replace_from_match "-" "alpha"). simpl.
    apply append_empty_r.
  - intros c u r Hp IH. simpl String.append.
    rewrite (replace_from_nomatch "-" "alpha")
      by (by apply prefix_alpha_straddle).
    by rewrite IH.
  - intros u r IH. rewrite append_assoc.
    rewrite (replace_from_match "-" "alpha"), IH. by rewrite append_assoc.
Qed.

(** X2: a version that ends with "-alpha" is normalised to one that ends
    with "a0": the final "-alpha" becomes "a0", and the text before it is
    rewritten with the same replacement. *)
Theorem reformat_version_alpha_suffix (t : string) :
  reformat_version (t +:+ "-alpha") = Str.replace t "-alpha" "a0" +:+ "a0"
  ∧ Str.endswith (reformat_version (t +:+ "-alpha")) "a0" = true.
Proof.
  assert (reformat_version (t +:+ "-alpha")
          = Str.replace t "-alpha" "a0" +:+ "a0") as H.
  { unfold reformat_version.
    rewrite (proj2 (endswith_spec (t +:+ "-alpha") "-alpha")) by by exists t.
    apply replace_alpha_suffix. }
  split; [done|]. rewrite H. apply endswith_spec. by eexists.
Qed.

(** ** The normalised table and [is_compat] *)

(** X3: the loop that normalises the table keeps its shape: the same
    spaCy versions, under each the same model names, and for each model a
    list of the same length whose i-th element is [reformat_version] of
    the i-th raw version. *)
Theorem normalize_table_shape (table : matrix) :
  dom (normalize_table table).2 = dom table
  ∧ ∀ spacy_v models,
      table !! spacy_v = Some models →
      ∃ models',
        (normalize_table table).2 !! spacy_v = Some models'
        ∧ dom models' = dom models
        ∧ ∀ model model_vs,
            models !! model = Some model_vs →
            ∃ model_vs',
              models' !! model = Some model_vs'
              ∧ length model_vs' = length model_vs
              ∧ ∀ i v, model_vs !! i = Some v →
                       model_vs' !! i = Some (reformat_version v).
Proof.
  rewrite (proj2 (normalize_table_spec table)). split.
  - apply dom_fmap_L.
  - intros spacy_v models Hv. exists (normalized models).
    rewrite lookup_fmap, Hv. split; [done|]. unfold normalized.
    split; [apply dom_fmap_L|].
    intros model model_vs Hm. exists (reformat_version <$> model_vs).
    rewrite lookup_fmap, Hm. split; [done|]. split; [apply length_fmap|].
    intros i v Hi. by rewrite list_lookup_fmap, Hi.
Qed.

Lemma normalize_table_shape_witness :
  ∃ models',
    (normalize_table example_table).2 !! "1.9.0" = Some models'
    ∧ dom models' = dom ({[ "en_old" := ["1.0.0-alpha"] ]} : submap)
    ∧ models' !! "en_old" = Some ["1.0.0a0"].
Proof.
  destruct (proj2 (normalize_table_shape example_table) "1.9.0"
              {[ "en_old" := ["1.0.0-alpha"] ]} eq_refl)
    as (models' & Hl & Hdom & Hm).
  exists models'. split; [done|]. split; [done|].
  destruct (Hm "en_old" ["1.0.0-alpha"] eq_refl) as (vs' & Hvs & Hlen & Hi).
  rewrite Hvs. f_equal.
  specialize (Hi 0 "1.0.0-alpha" eq_refl).
  destruct vs' as [|v [|? ?]]; [done| |done].
  by injection Hi as ->.
Defined.

Lemma normalized_lookup (models : submap) (name : string) :
  normalized models !! name
  = (λ vs : list string, reformat_version <$> vs) <$> models !! name.
Proof. unfold normalized. by rewrite lookup_fmap. Qed.

(** X4: against the normalised sub-map, an installed version is compatible
    whenever it is the normal form of a version that the raw table lists
    for the model. *)
Theorem is_compat_normalized_listed (models : submap) (name v : string)
    (vs : list string) :
  models !! name = Some vs →
  v ∈ vs →
  is_compat (normalized models) name (reformat_version v) = Ok true.
Proof.
  intros Hname Hin. rewrite is_compat_ok. f_equal. apply listed_true.
  exists (reformat_version <$> vs). rewrite normalized_lookup, Hname.
  split; [done|]. apply list_elem_of_fmap. by exists v.
Qed.

Lemma is_compat_normalized_listed_witness :
  is_compat (normalized {[ "en_old" := ["1.0.0-alpha"] ]}) "en_old" "1.0.0a0"
  = Ok true.
Proof.
  apply (is_compat_normalized_listed {[ "en_old" := ["1.0.0-alpha"] ]}
           "en_old" "1.0.0-alpha" ["1.0.0-alpha"]).
  - reflexivity.
  - apply (bool_decide_unpack _). by vm_compute.
Defined.

(** X5: installed versions are compared as they are, without being
    normalised: when every version that the raw table lists for a model
    has at most one hyphen, an installed version that still contains
    "-alpha" is reported incompatible. *)
Theorem is_compat_legacy_installed (models : submap) (name v : string)
    (vs : list string) :
  models !! name = Some vs →
  Forall (λ x, Str.count_char "-" x ≤ 1) vs →
  (∃ p q, v = p +:+ "-alpha" +:+ q) →
  is_compat (normalized models) name v = Ok false.
Proof.
  intros Hname Hvs Hocc%occurs_spec. rewrite is_compat_ok. f_equal.
  unfold listed. rewrite normalized_lookup, Hname. simpl.
  apply bool_decide_eq_false_2. intros Hin.
  apply list_elem_of_fmap in Hin as (x & -> & Hx).
  rewrite Forall_forall in Hvs. specialize (Hvs x Hx).
  assert (Str.occurs "-alpha" (reformat_version x) = false) as Hno.
  { unfold reformat_version.
    destruct (Str.endswith x "-alpha"); by apply replace_alpha_one_dash. }
  by rewrite Hno in Hocc.
Qed.

Lemma is_compat_legacy_installed_witness :
  is_compat (normalized {[ "en_old" := ["1.0.0-alpha"] ]}) "en_old" "1.0.0-alpha"
  = Ok false.
Proof.
  apply (is_compat_legacy_installed {[ "en_old" := ["1.0.0-alpha"] ]}
           "en_old" "1.0.0-alpha" ["1.0.0-alpha"]).
  - reflexivity.
  - apply Forall_cons. split; [vm_compute; lia|apply Forall_nil_2].
  - by exists "1.0.0", "".
Defined.

(** ** The scanners *)

Lemma startswith_dot (name : string) :
  Str.startswith name "." = true ↔ ∃ rest, name = String "." rest.
Proof.
  unfold Str.startswith. split.
  - intros [u ->]%prefix_split. by exists u.
  - intros [rest ->]. apply (prefix_app "." rest).
Qed.

(** X6: a link is never made for an entry of the data directory that is
    not a directory, that is named cache, pycache or __pycache__, whose
    name begins with a dot, or that has no [meta.json]; and every link
    is an entry of the data directory. *)
Theorem get_model_links_excludes (e : environment) (compat : submap)
    (links : gmap string Entry.t) (link : string) :
  get_model_links e compat = Ok links →
  is_Some (links !! link) →
  link ≠ "cache" ∧ link ≠ "pycache" ∧ link ≠ "__pycache__"
  ∧ (∀ rest, link ≠ String "." rest)
  ∧ ∃ data_path p,
      get_data_path e = Some data_path
      ∧ iterdir data_path !! link = Some p
      ∧ is_dir p = true
      ∧ is_Some (meta_json p).
Proof.
  rewrite get_model_links_ok. intros [= <-] [entry Hentry].
  destruct (get_data_path e) as [data_path|]; [|done].
  rewrite map_lookup_imap in Hentry.
  destruct (filter _ _ !! link) as [p|] eqn:E; [|done].
  apply map_lookup_filter_Some in E as [Hp Hpath]. simpl in Hentry, Hpath.
  unfold is_model_path in Hpath.
  apply andb_true_iff in Hpath as [[Hdir Hex]%andb_true_iff Hdot].
  apply negb_true_iff in Hex, Hdot.
  unfold list_contains in Hex. apply bool_decide_eq_false in Hex.
  assert (∀ x, x ∈ ["cache"; "pycache"; "__pycache__"] → link ≠ x) as Hne
    by (by intros x Hx ->).
  repeat split.
  - apply Hne. repeat constructor.
  - apply Hne. repeat constructor.
  - apply Hne. repeat constructor.
  - intros rest ->.
    by rewrite (proj2 (startswith_dot (String "." rest))) in Hdot by eauto.
  - exists data_path, p. repeat split; [done..|].
    by destruct (meta_json p).
Qed.

Lemma get_model_links_excludes_witness :
  (∃ data_path p,
     Some example_data = Some data_path
     ∧ iterdir data_path !! "en" = Some p
     ∧ is_dir p = true
     ∧ is_Some (meta_json p)).
Proof.
  apply (get_model_links_excludes
           (example_env "2.0.0" 200 (Some example_data) ∅)
           (normalized {[ "en_core_web_sm" := ["2.0.0"] ]})
           {[ "en" := Entry.Make "en_core_web_sm" "1.0.0" false ]} "en").
  - by vm_compute.
  - by eexists.
Defined.

Lemma map_chars_no_hyphen (s : string) :
  Str.count_char "-"
    (Str.map_chars (λ c, if decide (c = "-"%char) then "_"%char else c) s) = 0.
Proof.
  induction s as [|c s IH]; [done|]. cbn [Str.map_chars Str.count_char].
  rewrite IH. destruct (decide (c = "-"%char)) as [->|Hc].
  - by rewrite decide_False.
  - by rewrite decide_False.
Qed.

Lemma map_chars_length (f : ascii → ascii) (s : string) :
  String.length (Str.map_chars f s) = String.length s.
Proof. induction s; simpl; auto. Qed.

(** X7: every entry of [get_model_pkgs] is filed under the name of an
    installed package, unchanged, and the model name it records has no
    hyphen, has the length of the package name and is in [all_models]. *)
Theorem get_model_pkgs_names (e : environment) (compat : submap)
    (all_models : gset string) (pkgs : gmap string Entry.t)
    (pkg_name : string) (entry : Entry.t) :
  get_model_pkgs e compat all_models = Ok pkgs →
  pkgs !! pkg_name = Some entry →
  is_Some (by_key e !! pkg_name)
  ∧ Str.count_char "-" (Entry.name entry) = 0
  ∧ String.length (Entry.name entry) = String.length pkg_name
  ∧ Entry.name entry ∈ all_models.
Proof.
  rewrite get_model_pkgs_ok. intros [= <-]. rewrite map_lookup_imap.
  destruct (by_key e !! pkg_name) as [pkg_data|]; [|done]. cbv zeta. simpl.
  destruct (decide _) as [Hin|]; [|done]. intros [= <-]. simpl.
  change (Str.replace_from "-" "_" 0 pkg_name)
    with (Str.replace pkg_name "-" "_") in *.
  rewrite replace_hyphen in *.
  split; [by eexists|]. split; [apply map_chars_no_hyphen|].
  split; [apply map_chars_length|done].
Qed.

Lemma get_model_pkgs_names_witness :
  is_Some (example_packages !! "en-core-web-sm")
  ∧ Str.count_char "-" "en_core_web_sm" = 0
  ∧ String.length "en_core_web_sm" = String.length "en-core-web-sm"
  ∧ "en_core_web_sm" ∈ ({[ "en_core_web_sm"; "en_old" ]} : gset string).
Proof.
  apply (get_model_pkgs_names
           (example_env "2.0.0" 200 None example_packages)
           (normalized {[ "en_core_web_sm" := ["2.0.0"] ]})
           {[ "en_core_web_sm"; "en_old" ]}
           {[ "en-core-web-sm" := Entry.Make "en_core_web_sm" "1.0.0" false;
              "en-old" := Entry.Make "en_old" "1.0.0a0" false ]}
           "en-core-web-sm" (Entry.Make "en_core_web_sm" "1.0.0" false));
    by vm_compute.
Defined.

(** ** [get_row] *)

Lemma spaces_length (n : nat) : String.length (Str.spaces n) = n.
Proof. induction n; simpl; auto. Qed.

Lemma ljust_length (w : nat) (s : string) :
  String.length (Str.ljust w s) = String.length s `max` w.
Proof. unfold Str.ljust. rewrite append_length, spaces_length. lia. Qed.

Lemma ljust_prefix (w : nat) (s : string) :
  String.prefix s (Str.ljust w s) = true.
Proof. apply prefix_app. Qed.

(** X8: a row is never truncated: its length is 4 plus the width of the
    first column (10, or the length of its text when longer) plus, for
    each of the other four columns, 2 plus its width (20, or the length
    of its text when longer).  A row whose texts fit their columns has
    102 characters. *)
Theorem get_row_length (a0 a1 a2 a3 a4 : string) :
  String.length (get_row a0 a1 a2 a3 a4)
  = 4 + String.length a0 `max` 10
    + (2 + String.length a1 `max` 20) + (2 + String.length a2 `max` 20)
    + (2 + String.length a3 `max` 20) + (2 + String.length a4 `max` 20)
  ∧ (String.length a0 ≤ 10 → String.length a1 ≤ 20 → String.length a2 ≤ 20 →
     String.length a3 ≤ 20 → String.length a4 ≤ 20 →
     String.length (get_row a0 a1 a2 a3 a4) = 102).
Proof.
  assert (String.length (get_row a0 a1 a2 a3 a4)
    = 4 + String.length a0 `max` 10
      + (2 + String.length a1 `max` 20) + (2 + String.length a2 `max` 20)
      + (2 + String.length a3 `max` 20) + (2 + String.length a4 `max` 20)) as H.
  { unfold get_row. rewrite !append_length, !ljust_length.
    change (String.length "    ") with 4. change (String.length "  ") with 2.
    lia. }
  split; [done|]. rewrite H. lia.
Qed.

Lemma get_row_length_witness :
  String.length (get_row "TYPE" "NAME" "MODEL" "VERSION" "") = 102.
Proof.
  apply (proj2 (get_row_length "TYPE" "NAME" "MODEL" "VERSION" ""));
    vm_compute; lia.
Defined.

(** ** The table of installed models *)

Lemma get_model_row_raise (e : environment) (compat : submap)
    (name : string) (data : Entry.t) (type : string) (ex : exn) :
  get_model_row e compat name data type = Raise ex
  ↔ ex = IndexError ∧ Entry.compat data = false
    ∧ compat !! Entry.name data = Some [].
Proof.
  unfold get_model_row, dict_get.
  destruct (Entry.compat data); [by split; [|intros (_ & ? & _)]|].
  destruct (compat !! Entry.name data) as [[|v vs]|]; simpl.
  - split; [by intros [= <-]|by intros (-> & _)].
  - by split; [|intros (_ & _ & ?)].
  - by split; [|intros (_ & _ & ?)].
Qed.

Section rows.
Variables (e : environment) (compat : submap) (type : string).

Let body (name : string) (data : Entry.t) : M unit :=
  row ← lift (get_model_row e compat name data type); print row.

Let renders (p : string * Entry.t) (row : string) : Prop :=
  get_model_row e compat p.1 p.2 type = Ok row.

(** The loop over a list of items, the most recent item last: it prints
    the rows of the items in turn and stops at the first row that cannot
    be rendered. *)
Lemma rows_loop_run (l : list (string * Entry.t)) (w : world) :
  ∃ rows r,
    run (foldr (uncurry (λ k v acc, acc ;; body k v)) (mret tt) l) w
    = (World (stdout w ++ (Print <$> rows)) (requests w), r)
    ∧ ((r = Ok tt ∧ Forall2 renders (reverse l) rows)
       ∨ (r = Raise IndexError ∧ length rows < length l
          ∧ ∃ k v, (k, v) ∈ l
                   ∧ get_model_row e compat k v type = Raise IndexError)).
Proof.
  induction l as [|[k v] l IH].
  - exists [], (Ok tt). simpl. rewrite app_nil_r. split; [by destruct w|].
    left. split; [done|constructor].
  - destruct IH as (rows & r & Hrun & Hr). cbn [foldr uncurry].
    rewrite run_bind, Hrun. destruct Hr as [[-> Hall]|[-> Hlen]].
    + unfold body. rewrite run_bind. unfold lift at 1. cbn [run].
      destruct (get_model_row e compat k v type) as [row|ex] eqn:Hrow.
      * exists (rows ++ [row]), (Ok tt). cbn [run print stdout requests].
        rewrite fmap_app, app_assoc. split; [done|]. left. split; [done|].
        rewrite reverse_cons. apply Forall2_app; [done|].
        by repeat constructor.
      * pose proof Hrow as Hex. apply get_model_row_raise in Hex as (-> & _).
        exists rows, (Raise IndexError). split; [done|]. right.
        split; [done|]. split.
        -- apply Forall2_length in Hall.
           rewrite length_reverse in Hall. simpl. lia.
        -- exists k, v. split; [left|done].
    + destruct Hlen as (Hlen & k' & v' & Hin & Hbad).
      exists rows, (Raise IndexError). split; [done|]. right.
      split; [done|]. split; [simpl; lia|].
      exists k', v'. split; [by right|done].
Qed.

Lemma rows_loop (d : gmap string Entry.t) (w : world) :
  ∃ rows r,
    run (for_items_M d body) w
    = (World (stdout w ++ (Print <$> rows)) (requests w), r)
    ∧ ((r = Ok tt ∧ Forall2 renders (reverse (map_to_list d)) rows)
       ∨ (r = Raise IndexError ∧ length rows < size d
          ∧ ∃ k v, d !! k = Some v
                   ∧ get_model_row e compat k v type = Raise IndexError)).
Proof.
  unfold for_items_M. rewrite map_fold_foldr.
  destruct (rows_loop_run (map_to_list d) w) as (rows & r & Hrun & Hr).
  exists rows, r. split; [done|].
  destruct Hr as [?|(-> & Hlen & k & v & Hin & Hbad)]; [by left|right].
  rewrite length_map_to_list in Hlen. split; [done|]. split; [done|].
  exists k, v. by rewrite <- elem_of_map_to_list.
Qed.

(** When an item cannot be rendered, the loop raises. *)
Lemma rows_loop_bad (d : gmap string Entry.t) (rows : list string) k v :
  d !! k = Some v →
  get_model_row e compat k v type = Raise IndexError →
  ¬ Forall2 renders (reverse (map_to_list d)) rows.
Proof.
  intros Hk Hbad Hall.
  assert ((k, v) ∈ reverse (map_to_list d)) as Hin
    by by rewrite elem_of_reverse, elem_of_map_to_list.
  apply list_elem_of_lookup in Hin as [i Hi].
  destruct (Forall2_lookup_l _ _ _ _ _ Hall Hi) as (row & _ & Hrow).
  unfold renders in Hrow. simpl in Hrow. by rewrite Hbad in Hrow.
Qed.

End rows.

(** ** The report *)

Lemma validate_scanned (e : environment) (w : world) (models : submap)
    (links pkgs : gmap string Entry.t) :
  status_code (http_response e) = 200%Z →
  json_spacy (http_response e) !! about_version e = Some models →
  get_model_links e (normalized models) = Ok links →
  get_model_pkgs e (normalized models)
    (normalize_table (json_spacy (http_response e))).1 = Ok pkgs →
  run (validate e) w
  = run (report e (normalized models) links pkgs)
      (World (stdout w) (requests w ++ [about_compatibility e])).
Proof.
  intros Hstatus Hsome Hlinks Hpkgs. unfold validate. rewrite !run_bind.
  cbn [run requests_get]. rewrite run_bind.
  rewrite bool_decide_eq_false_2 by (by intros []).
  cbn [run mret M_ret].
  pose proof (normalize_table_lookup (json_spacy (http_response e))
                (about_version e)) as Hl.
  destruct (normalize_table _) as [all_models compat]. simpl in Hl, Hpkgs.
  rewrite Hsome in Hl. simpl in Hl.
  rewrite run_bind. unfold lift at 1. unfold getitem. cbn [run]. rewrite Hl.
  rewrite run_bind. unfold lift at 1. cbn [run]. rewrite Hlinks.
  rewrite run_bind. unfold lift at 1. cbn [run]. by rewrite Hpkgs.
Qed.

(** Lines 50-63 write [closing_output] and raise nothing. *)
Lemma closing_run (e : environment) (current_compat : submap)
    (links pkgs : gmap string Entry.t) (w : world) :
  run
    ((if nonempty_list
          (update_models (incompat_models pkgs links) current_compat)
      then
        print (nl +:+ "    Use the following commands to update the model packages:");;
        print (Str.join nl
                 ((λ pkg, "    python -m spacy download " +:+ pkg)
                    <$> update_models (incompat_models pkgs links)
                          current_compat))
      else mret tt);;
     (if nonempty_list (na_models (incompat_models pkgs links) current_compat)
      then prints ["The following models are not available for spaCy v"
                   +:+ about_version e +:+ ": "
                   +:+ Str.join ", "
                         (na_models (incompat_models pkgs links) current_compat)]
             None None
      else mret tt);;
     (if nonempty_set (incompat_links links)
      then prints ["You may also want to overwrite the incompatible links using "
                   +:+ "the `python -m spacy link` command with `--force`, or remove "
                   +:+ "them from the data directory. Data path: "
                   +:+ data_path_str e]
             None None
      else mret tt)) w
  = (World (stdout w ++ closing_output e current_compat links pkgs)
       (requests w), Ok tt).
Proof.
  unfold closing_output. cbv zeta.
  destruct (nonempty_list (update_models _ _)),
    (nonempty_list (na_models _ _)), (nonempty_set _);
    cbn; rewrite <- ?app_assoc, ?app_nil_r; by destruct w.
Qed.

(** The report when at least one model was found: heading, header row,
    the rows of the packages, the rows of the links, then the closing
    messages; or an [IndexError] in the middle of the table. *)
Lemma report_table (e : environment) (current_compat : submap)
    (links pkgs : gmap string Entry.t) (w : world) :
  nonempty_dict links || nonempty_dict pkgs = true →
  ∃ rows r,
    run (report e current_compat links pkgs) w
    = (World
         (stdout w
          ++ [heading e; Print (get_row "TYPE" "NAME" "MODEL" "VERSION" "")]
          ++ (Print <$> rows)
          ++ match r with
             | Ok _ => closing_output e current_compat links pkgs
             | Raise _ => []
             end)
         (requests w), r)
    ∧ ((r = Ok tt
        ∧ ∃ rows_p rows_l,
            rows = rows_p ++ rows_l
            ∧ Forall2 (λ p row,
                get_model_row e current_compat p.1 p.2 "package" = Ok row)
                (reverse (map_to_list pkgs)) rows_p
            ∧ Forall2 (λ p row,
                get_model_row e current_compat p.1 p.2 "link" = Ok row)
                (reverse (map_to_list links)) rows_l)
       ∨ (r = Raise IndexError ∧ length rows < size pkgs + size links
          ∧ ∃ k d, (pkgs !! k = Some d ∨ links !! k = Some d)
                   ∧ Entry.compat d = false
                   ∧ current_compat !! Entry.name d = Some [])).
Proof.
  intros Hne. unfold report. cbv zeta. rewrite run_bind.
  cbn [run prints]. rewrite Hne. rewrite run_bind.
  rewrite (run_bind (print _)). cbn [run print stdout requests].
  rewrite (run_bind (for_items_M pkgs _)).
  match goal with |- context [run (for_items_M pkgs _) ?w0] =>
    destruct (rows_loop e current_compat "package" pkgs w0)
      as (rows_p & r_p & Hrun_p & Hp) end.
  rewrite Hrun_p. cbn [stdout requests] in *.
  destruct Hp as [[-> Hall_p]|(-> & Hlen_p & k & d & Hk & Hbad)].
  - match goal with |- context [run (for_items_M links _) ?w0] =>
      destruct (rows_loop e current_compat "link" links w0)
        as (rows_l & r_l & Hrun_l & Hl) end.
    rewrite Hrun_l. cbn [stdout requests] in *.
    destruct Hl as [[-> Hall_l]|(-> & Hlen_l & k & d & Hk & Hbad)].
    + exists (rows_p ++ rows_l), (Ok tt). rewrite closing_run.
      cbn [stdout requests]. split.
      * f_equal. f_equal. rewrite fmap_app, <- !app_assoc. done.
      * left. split; [done|]. by exists rows_p, rows_l.
    + exists (rows_p ++ rows_l), (Raise IndexError). split.
      * f_equal. f_equal. rewrite fmap_app, app_nil_r, <- !app_assoc. done.
      * right. split; [done|]. split.
        -- apply Forall2_length in Hall_p.
           rewrite length_reverse, length_map_to_list in Hall_p.
           rewrite length_app. lia.
        -- apply get_model_row_raise in Hbad as (_ & ? & ?).
           exists k, d. auto.
  - exists rows_p, (Raise IndexError). split.
    + f_equal. f_equal. rewrite app_nil_r, <- !app_assoc. done.
    + right. split; [done|]. split; [lia|].
      apply get_model_row_raise in Hbad as (_ & ? & ?). exists k, d. auto.
Qed.

Lemma report_no_models (e : environment) (current_compat : submap)
    (w : world) :
  run (report e current_compat ∅ ∅) w
  = (World
       (stdout w ++ [heading e]
        ++ [Prints ["No models found in your current environment."] None])
       (requests w), Raise (SystemExit 0)).
Proof.
  unfold report. cbv zeta. rewrite !run_bind.
  rewrite !(nonempty_dict_empty (V:=Entry.t)). cbn.
  by rewrite <- app_assoc.
Qed.

Lemma nonempty_dict_true {V} `{EqDecision V} (d : gmap string V) :
  nonempty_dict d = true ↔ d ≠ ∅.
Proof.
  unfold nonempty_dict. by rewrite negb_true_iff, bool_decide_eq_false.
Qed.

Lemma nonempty_dicts (links pkgs : gmap string Entry.t) :
  links ≠ ∅ ∨ pkgs ≠ ∅ → nonempty_dict links || nonempty_dict pkgs = true.
Proof.
  intros H. apply orb_true_iff. by rewrite !nonempty_dict_true.
Qed.

Lemma rows_in_order (P : string * Entry.t → string → Prop)
    (d : gmap string Entry.t) (rows : list string) :
  Forall2 P (reverse (map_to_list d)) rows →
  ∃ order, order ≡ₚ map_to_list d ∧ Forall2 P order rows.
Proof.
  intros H. exists (reverse (map_to_list d)). split; [|done].
  apply reverse_Permutation.
Qed.

(** X9: when the table holds the spaCy version, at least one model was
    found and no incompatible model has an empty version list in the
    current sub-map, the command returns normally; it has written the
    heading, the header row, one row per package and one per link (each
    the rendering of one entry, in the order of the dictionary), and the
    closing messages. *)
Theorem validate_completes (e : environment) (w : world) (models : submap)
    (links pkgs : gmap string Entry.t) :
  status_code (http_response e) = 200%Z →
  json_spacy (http_response e) !! about_version e = Some models →
  get_model_links e (normalized models) = Ok links →
  get_model_pkgs e (normalized models)
    (normalize_table (json_spacy (http_response e))).1 = Ok pkgs →
  links ≠ ∅ ∨ pkgs ≠ ∅ →
  (∀ k d, pkgs !! k = Some d ∨ links !! k = Some d →
          Entry.compat d = false →
          normalized models !! Entry.name d ≠ Some []) →
  ∃ order_p rows_p order_l rows_l,
    order_p ≡ₚ map_to_list pkgs
    ∧ Forall2 (λ p row,
        get_model_row e (normalized models) p.1 p.2 "package" = Ok row)
        order_p rows_p
    ∧ order_l ≡ₚ map_to_list links
    ∧ Forall2 (λ p row,
        get_model_row e (normalized models) p.1 p.2 "link" = Ok row)
        order_l rows_l
    ∧ run (validate e) w
      = (World
           (stdout w
            ++ [heading e; Print (get_row "TYPE" "NAME" "MODEL" "VERSION" "")]
            ++ (Print <$> rows_p ++ rows_l)
            ++ closing_output e (normalized models) links pkgs)
           (requests w ++ [about_compatibility e]),
         Ok tt).
Proof.
  intros Hstatus Hsome Hlinks Hpkgs Hne Hgood.
  rewrite (validate_scanned e w models links pkgs) by done.
  destruct (report_table e (normalized models) links pkgs
              (World (stdout w) (requests w ++ [about_compatibility e]))
              (nonempty_dicts _ _ Hne))
    as (rows & r & Hrun & [(-> & rows_p & rows_l & -> & Hp & Hl)
                          |(_ & _ & k & d & Hk & Hc & Hempty)]).
  - destruct (rows_in_order _ _ _ Hp) as (order_p & ? & ?).
    destruct (rows_in_order _ _ _ Hl) as (order_l & ? & ?).
    by exists order_p, rows_p, order_l, rows_l.
  - by destruct (Hgood k d Hk Hc).
Qed.

Lemma validate_completes_witness :
  ∃ rows,
    run (validate (example_env "2.0.0" 200 (Some example_data) example_packages))
      world0
    = (World
         ([heading (example_env "2.0.0" 200 (Some example_data) example_packages);
           Print (get_row "TYPE" "NAME" "MODEL" "VERSION" "")]
          ++ (Print <$> rows)
          ++ closing_output
               (example_env "2.0.0" 200 (Some example_data) example_packages)
               (normalized {[ "en_core_web_sm" := ["2.0.0"] ]})
               {[ "en" := Entry.Make "en_core_web_sm" "1.0.0" false ]}
               {[ "en-core-web-sm" := Entry.Make "en_core_web_sm" "1.0.0" false;
                  "en-old" := Entry.Make "en_old" "1.0.0a0" false ]})
         ["https://example.org/compatibility.json"],
       Ok tt)
    ∧ length rows = 3.
Proof.
  destruct (validate_completes
    (example_env "2.0.0" 200 (Some example_data) example_packages) world0
    {[ "en_core_web_sm" := ["2.0.0"] ]}
    {[ "en" := Entry.Make "en_core_web_sm" "1.0.0" false ]}
    {[ "en-core-web-sm" := Entry.Make "en_core_web_sm" "1.0.0" false;
       "en-old" := Entry.Make "en_old" "1.0.0a0" false ]})
    as (order_p & rows_p & order_l & rows_l & Hop & Hp & Hol & Hl & Hrun).
  - reflexivity.
  - reflexivity.
  - by vm_compute.
  - by vm_compute.
  - left. by vm_compute.
  - intros k d _ _ Hempty. unfold normalized in Hempty.
    rewrite lookup_fmap in Hempty.
    destruct (decide (Entry.name d = "en_core_web_sm")) as [Hn|Hn].
    + rewrite Hn in Hempty. by vm_compute in Hempty.
    + by rewrite lookup_singleton_ne in Hempty.
  - exists (rows_p ++ rows_l). split; [done|].
    apply Forall2_length in Hp, Hl. apply Permutation_length in Hop, Hol.
    rewrite length_app, <- Hp, <- Hl, Hop, Hol. by vm_compute.
Defined.

(** X10: when an incompatible installed model is a key of the current
    sub-map with an empty version list, the command ends with
    [IndexError] in the middle of the table: after the heading and the
    header it has written fewer rows than there are entries, and none of
    the closing messages. *)
Theorem validate_index_error (e : environment) (w : world) (models : submap)
    (links pkgs : gmap string Entry.t) (k : string) (d : Entry.t) :
  status_code (http_response e) = 200%Z →
  json_spacy (http_response e) !! about_version e = Some models →
  get_model_links e (normalized models) = Ok links →
  get_model_pkgs e (normalized models)
    (normalize_table (json_spacy (http_response e))).1 = Ok pkgs →
  pkgs !! k = Some d ∨ links !! k = Some d →
  Entry.compat d = false →
  normalized models !! Entry.name d = Some [] →
  ∃ rows,
    length rows < size pkgs + size links
    ∧ run (validate e) w
      = (World
           (stdout w
            ++ [heading e; Print (get_row "TYPE" "NAME" "MODEL" "VERSION" "")]
            ++ (Print <$> rows))
           (requests w ++ [about_compatibility e]),
         Raise IndexError).
Proof.
  intros Hstatus Hsome Hlinks Hpkgs Hk Hc Hempty.
  rewrite (validate_scanned e w models links pkgs) by done.
  assert (links ≠ ∅ ∨ pkgs ≠ ∅) as Hne.
  { destruct Hk as [Hk|Hk]; [right|left]; intros ->;
      by rewrite lookup_empty in Hk. }
  destruct (report_table e (normalized models) links pkgs
              (World (stdout w) (requests w ++ [about_compatibility e]))
              (nonempty_dicts _ _ Hne))
    as (rows & r & Hrun & [(-> & rows_p & rows_l & -> & Hp & Hl)
                          |(-> & Hlen & _)]).
  - exfalso. destruct Hk as [Hk|Hk].
    + eapply (rows_loop_bad e (normalized models) "package" pkgs rows_p k d);
        [done| |done].
      by apply get_model_row_raise.
    + eapply (rows_loop_bad e (normalized models) "link" links rows_l k d);
        [done| |done].
      by apply get_model_row_raise.
  - exists rows. split; [done|]. rewrite Hrun. by rewrite app_nil_r.
Qed.

Lemma validate_index_error_witness :
  ∃ rows,
    length rows < 1
    ∧ run (validate
             (Environment "2.0.0" "https://example.org/compatibility.json"
                (Response 200 {[ "2.0.0" := {[ "en_core_web_sm" := [] ]} ]})
                None {[ "en-core-web-sm" := Dist.Make "1.0.0" ]} "/spacy" "ok"))
        world0
      = (World
           ([heading
               (Environment "2.0.0" "https://example.org/compatibility.json"
                  (Response 200 {[ "2.0.0" := {[ "en_core_web_sm" := [] ]} ]})
                  None {[ "en-core-web-sm" := Dist.Make "1.0.0" ]} "/spacy" "ok");
             Print (get_row "TYPE" "NAME" "MODEL" "VERSION" "")]
            ++ (Print <$> rows))
           ["https://example.org/compatibility.json"],
         Raise IndexError).
Proof.
  destruct (validate_index_error
    (Environment "2.0.0" "https://example.org/compatibility.json"
       (Response 200 {[ "2.0.0" := {[ "en_core_web_sm" := [] ]} ]})
       None {[ "en-core-web-sm" := Dist.Make "1.0.0" ]} "/spacy" "ok")
    world0 {[ "en_core_web_sm" := [] ]} ∅
    {[ "en-core-web-sm" := Entry.Make "en_core_web_sm" "1.0.0" false ]}
    "en-core-web-sm" (Entry.Make "en_core_web_sm" "1.0.0" false))
    as (rows & Hlen & Hrun).
  - reflexivity.
  - reflexivity.
  - by vm_compute.
  - by vm_compute.
  - left. reflexivity.
  - reflexivity.
  - by vm_compute.
  - exists rows. split; [|done].
    replace (size _ + size _) with 1 in Hlen by (by vm_compute). done.
Defined.

Lemma closing_output_compatible (e : environment) (current_compat : submap)
    (links pkgs : gmap string Entry.t) :
  (∀ k d, pkgs !! k = Some d ∨ links !! k = Some d → Entry.compat d = true) →
  closing_output e current_compat links pkgs = [].
Proof.
  intros Hall.
  assert (incompat_models pkgs links = ∅) as Hm.
  { apply elem_of_equiv_empty_L. intros m Hm.
    apply elem_of_incompat_models in Hm as (k & d & Hk & Hc & _).
    by rewrite (Hall k d Hk) in Hc. }
  assert (incompat_links links = ∅) as Hl.
  { unfold incompat_links. apply dom_empty_iff_L, map_empty_filter.
    intros k d Hk Hc. simpl in Hc.
    by rewrite (Hall k d (or_intror Hk)) in Hc. }
  unfold closing_output. cbv zeta. rewrite Hm, Hl.
  unfold update_models, na_models, nonempty_set.
  rewrite elements_empty. by rewrite bool_decide_eq_true_2.
Qed.

(** X11: when at least one model was found and every installed model is
    compatible, the command returns normally after the heading, the
    header and one row per package and link; it prints no update
    command, no notice of unavailable models and no hint about links. *)
Theorem validate_all_compatible (e : environment) (w : world)
    (models : submap) (links pkgs : gmap string Entry.t) :
  status_code (http_response e) = 200%Z →
  json_spacy (http_response e) !! about_version e = Some models →
  get_model_links e (normalized models) = Ok links →
  get_model_pkgs e (normalized models)
    (normalize_table (json_spacy (http_response e))).1 = Ok pkgs →
  links ≠ ∅ ∨ pkgs ≠ ∅ →
  (∀ k d, pkgs !! k = Some d ∨ links !! k = Some d → Entry.compat d = true) →
  ∃ rows,
    length rows = size pkgs + size links
    ∧ run (validate e) w
      = (World
           (stdout w
            ++ [heading e; Print (get_row "TYPE" "NAME" "MODEL" "VERSION" "")]
            ++ (Print <$> rows))
           (requests w ++ [about_compatibility e]),
         Ok tt).
Proof.
  intros Hstatus Hsome Hlinks Hpkgs Hne Hall.
  rewrite (validate_scanned e w models links pkgs) by done.
  destruct (report_table e (normalized models) links pkgs
              (World (stdout w) (requests w ++ [about_compatibility e]))
              (nonempty_dicts _ _ Hne))
    as (rows & r & Hrun & [(-> & rows_p & rows_l & -> & Hp & Hl)
                          |(_ & _ & k & d & Hk & Hc & _)]).
  - exists (rows_p ++ rows_l). split.
    + apply Forall2_length in Hp, Hl.
      rewrite length_reverse, length_map_to_list in Hp, Hl.
      rewrite length_app. lia.
    + rewrite Hrun, closing_output_compatible by done.
      by rewrite app_nil_r.
  - by rewrite (Hall k d Hk) in Hc.
Qed.

Lemma validate_all_compatible_witness :
  ∃ rows,
    length rows = 1
    ∧ run (validate
             (example_env "2.0.0" 200 None
                {[ "en-core-web-sm" := Dist.Make "2.0.0" ]}))
        world0
      = (World
           ([heading
               (example_env "2.0.0" 200 None
                  {[ "en-core-web-sm" := Dist.Make "2.0.0" ]});
             Print (get_row "TYPE" "NAME" "MODEL" "VERSION" "")]
            ++ (Print <$> rows))
           ["https://example.org/compatibility.json"],
         Ok tt).
Proof.
  destruct (validate_all_compatible
    (example_env "2.0.0" 200 None {[ "en-core-web-sm" := Dist.Make "2.0.0" ]})
    world0 {[ "en_core_web_sm" := ["2.0.0"] ]} ∅
    {[ "en-core-web-sm" := Entry.Make "en_core_web_sm" "2.0.0" true ]})
    as (rows & Hlen & Hrun).
  - reflexivity.
  - reflexivity.
  - by vm_compute.
  - by vm_compute.
  - right. by vm_compute.
  - intros k d [Hk|Hk]; [|by rewrite lookup_empty in Hk].
    destruct (decide (k = "en-core-web-sm")) as [->|Hne].
    + rewrite lookup_singleton_eq in Hk. by injection Hk as <-.
    + by rewrite lookup_singleton_ne in Hk.
  - exists rows. split; [|done].
    replace (size _ + size _) with 1 in Hlen by (by vm_compute). done.
Defined.

(** ** Every run of [validate] *)

Lemma nonempty_dict_false {V} `{EqDecision V} (d : gmap string V) :
  nonempty_dict d = false → d = ∅.
Proof.
  unfold nonempty_dict. rewrite negb_false_iff. apply bool_decide_eq_true_1.
Qed.

(** The ways a run can go, by the status of the response and the
    presence of the spaCy version in the table. *)
Lemma validate_cases (e : environment) (w : world) :
  ∃ out r,
    run (validate e) w
    = (World (stdout w ++ out) (requests w ++ [about_compatibility e]), r)
    ∧ ((status_code (http_response e) ≠ 200%Z ∧ r = Raise (SystemExit 1))
       ∨ (status_code (http_response e) = 200%Z
          ∧ json_spacy (http_response e) !! about_version e = None
          ∧ r = Raise (KeyError (about_version e)) ∧ out = [])
       ∨ (status_code (http_response e) = 200%Z
          ∧ is_Some (json_spacy (http_response e) !! about_version e)
          ∧ (r = Ok tt ∨ r = Raise (SystemExit 0) ∨ r = Raise IndexError)
          ∧ ∃ out', out = heading e :: out')).
Proof.
  destruct (decide (status_code (http_response e) = 200%Z)) as [Hs|Hs].
  - destruct (json_spacy (http_response e) !! about_version e)
      as [models|] eqn:Hv.
    + pose proof (get_model_links_ok e (normalized models)) as Hlinks.
      pose proof (get_model_pkgs_ok e (normalized models)
        (normalize_table (json_spacy (http_response e))).1) as Hpkgs.
      rewrite (validate_scanned e w models _ _ Hs Hv Hlinks Hpkgs).
      match type of Hlinks with _ = Ok ?m => generalize m end. intros links.
      match type of Hpkgs with _ = Ok ?m => generalize m end. intros pkgs.
      clear Hlinks Hpkgs.
      destruct (nonempty_dict links || nonempty_dict pkgs) eqn:Hne.
      * destruct (report_table e (normalized models) links pkgs
                    (World (stdout w) (requests w ++ [about_compatibility e]))
                    Hne) as (rows & r & Hrun & Hr).
        eexists _, r. split; [exact Hrun|]. right. right.
        split; [done|]. split; [done|]. split; [|by eexists].
        destruct Hr as [[-> _]|[-> _]]; auto.
      * apply orb_false_iff in Hne as [->%nonempty_dict_false
                                        ->%nonempty_dict_false].
        rewrite report_no_models. eexists _, _. split; [done|].
        right. right. split; [done|]. split; [done|].
        split; [auto|by eexists].
    + exists [], (Raise (KeyError (about_version e))).
      split; [|by right; left].
      unfold validate. rewrite !run_bind.
      cbn [run requests_get]. rewrite run_bind.
      rewrite bool_decide_eq_false_2 by (by intros []).
      cbn [run mret M_ret].
      pose proof (normalize_table_lookup (json_spacy (http_response e))
                    (about_version e)) as Hl.
      destruct (normalize_table _) as [all_models compat]. simpl in Hl.
      rewrite run_bind. unfold lift, getitem. cbn [run].
      rewrite Hl, Hv. simpl. by rewrite app_nil_r.
  - eexists _, (Raise (SystemExit 1)). split; [|by left].
    unfold validate. rewrite !run_bind.
    cbn [run requests_get]. rewrite run_bind.
    rewrite bool_decide_eq_true_2 by done. done.
Qed.


(** X13: every run of [validate] issues exactly one request, to the
    compatibility URL, and only appends to the standard output; when the
    status is 200 and the table holds the spaCy version, what it appends
    begins with the heading. *)
Theorem validate_single_request (e : environment) (w : world) :
  requests (run (validate e) w).1 = requests w ++ [about_compatibility e]
  ∧ ∃ out,
      stdout (run (validate e) w).1 = stdout w ++ out
      ∧ (status_code (http_response e) = 200%Z →
         is_Some (json_spacy (http_response e) !! about_version e) →
         ∃ out', out = heading e :: out').
Proof.
  destruct (validate_cases e w) as (out & r & -> & Hr). simpl.
  split; [done|]. exists out. split; [done|]. intros Hs Hv.
  destruct Hr as [[Hne _]|[(_ & Hnone & _)|(_ & _ & _ & Hout)]].
  - done.
  - rewrite Hnone in Hv. by destruct Hv.
  - done.
Qed.
